(** * SimpleNFT collection and its metadata / image / upload endpoints

    A shallow embedding of
    - the Solidity contract [SimpleNFT] (token registry, owner gate, freeze latch),
    - the route handlers [api/image/[tokenId]/route.ts],
      [api/metadata/[tokenId]/route.ts], the query-string metadata handler and
      [api/upload/route.ts],
    followed by the properties of the token lifecycle and of metadata resolution. *)

From Stdlib Require Import ZArith NArith List String Ascii Lia.
From Stdlib Require Import DecimalString DecimalFacts DecimalPos DecimalN.
From stdpp Require Import gmap list.
Import ListNotations.

Local Open Scope string_scope.
Local Open Scope list_scope.
Local Open Scope Z_scope.

(** ** JavaScript values used by the route handlers *)

Module JS.

(** A JavaScript string is a sequence of UTF-16 code units. *)
Abbreviation jsstring := (list N).

(** A source literal, one code unit per character (the literals of the
    handlers are ASCII). *)
Definition lit (s : string) : jsstring := map N_of_ascii (list_ascii_of_string s).

Definition newline : jsstring := [10%N].

(** Text of a template literal, given line by line. The apostrophe stands
    for the quotation mark U+0022, which the templates use around XML
    attribute values (none of them contains an apostrophe). *)
Definition quote (c : N) : N := if (c =? 39)%N then 34%N else c.

Fixpoint tpl (lines : list string) : jsstring :=
  match lines with
  | [] => []
  | [l] => map quote (lit l)
  | l :: rest => map quote (lit l) ++ newline ++ tpl rest
  end.

(** [!!s] for a string: the empty string is the only falsy one. *)
Definition truthy (s : jsstring) : bool :=
  match s with [] => false | _ :: _ => true end.

(** [!!v] for [string | null]. *)
Definition truthy_opt (v : option jsstring) : bool :=
  match v with None => false | Some s => truthy s end.

(** [a || b] with [a : string | null] and [b : string]. *)
Definition or_else (a : option jsstring) (b : jsstring) : jsstring :=
  match a with
  | Some s => if truthy s then s else b
  | None => b
  end.

Definition code_unit_eqb (a b : N) : bool := (a =? b)%N.

(** [s.startsWith(p)] *)
Fixpoint startsWith (s p : jsstring) : bool :=
  match p, s with
  | [], _ => true
  | _ :: _, [] => false
  | c :: p', d :: s' => code_unit_eqb c d && startsWith s' p'
  end.

(** White space and line terminators, the code units [trim] strips. *)
Definition isWhiteSpace (c : N) : bool :=
  ((9 <=? c) && (c <=? 13) || (c =? 32) || (c =? 160) || (c =? 5760)
   || (8192 <=? c) && (c <=? 8202) || (c =? 8232) || (c =? 8233)
   || (c =? 8239) || (c =? 8287) || (c =? 12288) || (c =? 65279))%N.

Fixpoint trimStart (s : jsstring) : jsstring :=
  match s with
  | c :: s' => if isWhiteSpace c then trimStart s' else s
  | [] => []
  end.

Definition trim (s : jsstring) : jsstring :=
  rev (trimStart (rev (trimStart s))).

Definition isHighSurrogate (c : N) : bool := ((55296 <=? c) && (c <=? 56319))%N.
Definition isLowSurrogate (c : N) : bool := ((56320 <=? c) && (c <=? 57343))%N.

(** [Array.from(s)]: the string iterator yields one string per code point, a
    well-formed surrogate pair staying together. *)
Fixpoint Array_from (s : jsstring) : list jsstring :=
  match s with
  | [] => []
  | h :: t =>
      match t with
      | l :: t' =>
          if isHighSurrogate h && isLowSurrogate l
          then [h; l] :: Array_from t'
          else [h] :: Array_from t
      | [] => [[h]]
      end
  end.

(** [s.charCodeAt(i)]; [None] is NaN (index out of range). *)
Definition charCodeAt (s : jsstring) (i : nat) : option N := nth_error s i.

(** ToInt32 on an integer-valued number. *)
Definition ToInt32 (z : Z) : Z := (z + 2 ^ 31) mod 2 ^ 32 - 2 ^ 31.

(** [a << k] *)
Definition shl (a k : Z) : Z := ToInt32 (Z.shiftl (ToInt32 a) (Z.land k 31)).

(** [a | b] *)
Definition bor (a b : Z) : Z := ToInt32 (Z.lor (ToInt32 a) (ToInt32 b)).

(** [Math.abs] and [%] on integer-valued numbers: [%] truncates, its
    result has the sign of the dividend. *)
Definition Math_abs (z : Z) : Z := Z.abs z.
Definition remainder (a b : Z) : Z := Z.rem a b.

(** [String(n)] for an integer-valued number (below 1e21 in magnitude). *)
Definition Number_toString (z : Z) : jsstring := lit (NilZero.string_of_int (Z.to_int z)).

(** The double-precision operations the pattern generator uses; their
    results are not integers and stay abstract. *)
Class Float64 := {
  float : Type;
  of_int : Z -> float;
  fadd : float -> float -> float;
  fmul : float -> float -> float;
  fdiv : float -> float -> float;
  Math_PI : float;
  Math_cos : float -> float;
  Math_sin : float -> float;
  float_toString : float -> jsstring
}.

(** A [Response]: status, the headers given to its constructor, body. *)
Record Response (B : Type) := mkResponse {
  status : Z;
  headers : list (jsstring * jsstring);
  body : B
}.
Arguments mkResponse {B}.
Arguments status {B}.
Arguments headers {B}.
Arguments body {B}.

(** [String.prototype.toLowerCase] follows the Unicode case mapping tables
    of the runtime, which are no part of the sources. *)
Class Unicode := { toLowerCase : jsstring -> jsstring }.

(** [url.searchParams.get(name)]: the first value with that name, or null. *)
Fixpoint searchParams_get (params : list (jsstring * jsstring)) (name : jsstring)
  : option jsstring :=
  match params with
  | [] => None
  | (k, v) :: rest => if decide (k = name) then Some v else searchParams_get rest name
  end.

Fixpoint header_get (hs : list (jsstring * jsstring)) (name : jsstring) : option jsstring :=
  match hs with
  | [] => None
  | (k, v) :: hs' => if decide (k = name) then Some v else header_get hs' name
  end.

End JS.

(** ** api/image/[tokenId]/route.ts *)

Module ImageRoute.
Import JS.

(** The reducer of lines 4-5 and 14-15:
    [(acc, char) => ((acc << 5) - acc + char.charCodeAt(0)) | 0].
    With NaN in the sum the bitwise or gives 0. *)
Definition hash_step (acc : Z) (char : jsstring) : Z :=
  match charCodeAt char 0 with
  | Some c => bor (shl acc 5 - acc + Z.of_N c) 0
  | None => 0
  end.

(** [Array.from(tokenId).reduce(hash_step, 0)] *)
Definition hash (tokenId : jsstring) : Z :=
  fold_left hash_step (Array_from tokenId) 0.

Definition generateColor (tokenId : jsstring) : jsstring :=
  let hash := hash tokenId in
  let hue := remainder (Math_abs hash) 360 in
  lit "hsl(" ++ Number_toString hue ++ lit ", 70%, 60%)".

Definition numCircles (tokenId : jsstring) : Z :=
  remainder (Math_abs (hash tokenId)) 5 + 3.

Definition radius (tokenId : jsstring) : Z :=
  50 + remainder (hash tokenId) 30.

Section Pattern.
Context {F : Float64}.

(** [i * (2 * Math.PI / numCircles)] *)
Definition angle (i n : Z) : float :=
  fmul (of_int i) (fdiv (fmul (of_int 2) Math_PI) (of_int n)).

Definition cx (i n : Z) : float :=
  fadd (of_int 250) (fmul (Math_cos (angle i n)) (of_int 100)).

Definition cy (i n : Z) : float :=
  fadd (of_int 250) (fmul (Math_sin (angle i n)) (of_int 100)).

(** The template literal appended in the loop body. *)
Definition circle (cx cy : float) (r : Z) : jsstring :=
  tpl [""; "      <circle "; "        cx='"] ++ float_toString cx ++
  tpl ["' "; "        cy='"] ++ float_toString cy ++
  tpl ["' "; "        r='"] ++ Number_toString r ++
  tpl ["' "; "        fill='rgba(255,255,255,0.2)'"; "      />"; "    "].

Definition generatePattern (tokenId : jsstring) : jsstring :=
  let n := numCircles tokenId in
  let r := radius tokenId in
  fold_left (fun patterns i => patterns ++ circle (cx i n) (cy i n) r)
            (seqZ 0 n) [].

Definition svg (tokenId : jsstring) : jsstring :=
  let backgroundColor := generateColor tokenId in
  trim (
    tpl [""; "      <svg "; "        width='500' "; "        height='500' ";
         "        viewBox='0 0 500 500' ";
         "        xmlns='http://www.w3.org/2000/svg'";
         "        preserveAspectRatio='xMidYMid meet'"; "      >";
         "        <defs>";
         "          <linearGradient id='grad' x1='0%' y1='0%' x2='100%' y2='100%'>";
         "            <stop offset='0%' style='stop-color:"] ++ backgroundColor ++
    tpl [";stop-opacity:1' />";
         "            <stop offset='100%' style='stop-color:"] ++ backgroundColor ++
    tpl [";stop-opacity:0.7' />";
         "          </linearGradient>"; "        </defs>"; "        ";
         "        <!-- Background -->";
         "        <rect width='100%' height='100%' fill='url(#grad)'/>";
         "        "; "        <!-- Pattern -->"; "        "] ++
    generatePattern tokenId ++
    tpl [""; "        "; "        <!-- Token ID -->"; "        <text ";
         "          x='50%' "; "          y='50%' ";
         "          dominant-baseline='middle' ";
         "          text-anchor='middle' ";
         "          font-family='Arial, sans-serif' ";
         "          font-size='48' "; "          font-weight='bold' ";
         "          fill='white'";
         "          filter='drop-shadow(0 2px 4px rgba(0,0,0,0.2))'";
         "        >"; "          #"] ++ tokenId ++
    tpl [""; "        </text>"; "      </svg>"; "    "]).

(** [GET]: nothing in the [try] block throws, the handler answers with
    the default status 200. *)
Definition GET (tokenId : jsstring) : Response jsstring :=
  mkResponse 200
    [(lit "Content-Type", lit "image/svg+xml");
     (lit "Cache-Control", lit "public, max-age=31536000, immutable")]
    (svg tokenId).
End Pattern.

End ImageRoute.

(** ** config/constants.ts (URL configuration) *)

Module Constants.
Import JS.

(** [window.location.origin] when there is a window, and the two
    environment variables ([string | undefined]). *)
Record Env := {
  window_origin : option jsstring;
  NEXT_PUBLIC_WEBSITE_URL : option jsstring;
  NEXT_PUBLIC_API_URL : option jsstring
}.

Definition BASE_URL (env : Env) : jsstring :=
  match window_origin env with
  | Some origin => origin
  | None => or_else (NEXT_PUBLIC_WEBSITE_URL env) (lit "http://localhost:3000")
  end.

Definition API_URL (env : Env) : jsstring :=
  match window_origin env with
  | Some origin => origin
  | None => or_else (NEXT_PUBLIC_API_URL env) (lit "http://localhost:3000")
  end.

End Constants.

(** ** The asset store (firebase/storage), at its interface *)

Module Firebase.
Import JS.

Record StorageReference := { name : jsstring; fullPath : jsstring }.

Record UploadMetadata := {
  contentType : jsstring;
  customMetadata : list (jsstring * jsstring)
}.

(** The outcome of a call into the SDK: a value, or a thrown error (a
    rejected promise) with its [message]. *)
Inductive outcome (A : Type) :=
| Resolved (a : A)
| Rejected (message : jsstring).
Arguments Resolved {A}.
Arguments Rejected {A}.

(** What the store answers to each call; [uploadBytes] is given the path
    of the reference, the bytes and the upload metadata. *)
Record Store := {
  getStorage : outcome unit;
  listAll : jsstring -> outcome (list StorageReference);
  getDownloadURL : StorageReference -> outcome jsstring;
  uploadBytes : jsstring -> list N -> UploadMetadata -> outcome StorageReference
}.

End Firebase.

(** ** api/metadata/[tokenId]/route.ts *)

Module MetadataRoute.
Import JS Constants Firebase.

(** [value: string | number] *)
Inductive AttributeValue :=
| VString (s : jsstring)
| VNumber (n : Z).

Record Attribute := {
  trait_type : jsstring;
  value : AttributeValue;
  display_type : option jsstring
}.

Record NFTMetadata := {
  name : jsstring;
  description : jsstring;
  image : jsstring;
  external_url : jsstring;
  attributes : list Attribute
}.

Definition typeof (v : AttributeValue) : jsstring :=
  match v with
  | VString _ => lit "string"
  | VNumber _ => lit "number"
  end.

Definition Array_isArray {A} (l : list A) : bool := true.

Definition validateMetadata (metadata : NFTMetadata) : bool :=
  truthy (name metadata) &&
  truthy (description metadata) &&
  truthy (image metadata) &&
  truthy (external_url metadata) &&
  Array_isArray (attributes metadata) &&
  forallb (fun attr =>
             truthy (trait_type attr) &&
             (bool_decide (typeof (value attr) = lit "string")
              || bool_decide (typeof (value attr) = lit "number")))
          (attributes metadata).

(** The body of a JSON response: the metadata document or [{ error }]. *)
Inductive Body :=
| Document (metadata : NFTMetadata)
| Error (error : jsstring).

(** The request: its query parameters; [tokenId] is the route segment. *)
Record Request := { searchParams : list (jsstring * jsstring) }.

Section Handler.
Context {U : Unicode}.
Variable store : Store.

(** Every [catch] of the three nested [try] blocks returns null. *)
Definition findUploadedImage (contractAddress : jsstring) : option jsstring :=
  match getStorage store with
  | Resolved _ =>
      let collectionPath := lit "collections/" ++ toLowerCase contractAddress in
      match listAll store collectionPath with
      | Resolved items =>
          match find (fun item => startsWith (Firebase.name item) (lit "collection-"))
                     items with
          | None => None
          | Some collectionImage =>
              match getDownloadURL store collectionImage with
              | Resolved downloadURL => Some downloadURL
              | Rejected urlError => None
              end
          end
      | Rejected listError => None
      end
  | Rejected error => None
  end.

Variable env : Env.
(** [Date.now()], in milliseconds. *)
Variable now : Z.

Definition build_metadata (uploadedImage : option jsstring) (tokenId : jsstring)
  : NFTMetadata :=
  {| name := lit "MyNFT #" ++ tokenId;
     description := lit "NFT #" ++ tokenId ++ lit " on the Nexus network.";
     image := or_else uploadedImage (API_URL env ++ lit "/api/image/" ++ tokenId);
     external_url := BASE_URL env ++ lit "/nft/" ++ tokenId;
     attributes :=
       [ {| trait_type := lit "Token ID"; value := VString tokenId;
            display_type := None |};
         {| trait_type := lit "Image Type";
            value := VString (if truthy_opt uploadedImage
                              then lit "Uploaded" else lit "Generated");
            display_type := None |};
         {| trait_type := lit "Created"; value := VNumber (now / 1000);
            display_type := Some (lit "date") |} ] |}.

Definition GET (request : Request) (tokenId : jsstring) : Response Body :=
  let contractAddress := searchParams_get (searchParams request) (lit "contract") in
  match contractAddress with
  | Some address =>
      if truthy address then
        let uploadedImage := findUploadedImage address in
        let metadata := build_metadata uploadedImage tokenId in
        if negb (validateMetadata metadata) then
          mkResponse 500 [] (Error (lit "Invalid metadata structure"))
        else
          mkResponse 200
            [(lit "Content-Type", lit "application/json");
             (lit "Cache-Control", lit "no-cache, no-store, must-revalidate")]
            (Document metadata)
      else mkResponse 400 [] (Error (lit "Contract address is required"))
  | None => mkResponse 400 [] (Error (lit "Contract address is required"))
  end.
End Handler.

End MetadataRoute.

(** ** The query-string metadata handler ([?contract=..&tokenId=..]) *)

Module MetadataQueryRoute.
Import JS Constants Firebase.
Import MetadataRoute (AttributeValue, VString, VNumber, Attribute, NFTMetadata,
                      Body, Document, Error, Request, searchParams).

Section Handler.
Context {U : Unicode}.
Variable store : Store.

(** Both [catch] blocks return null; a rejected [getDownloadURL] is caught
    by the inner one. *)
Definition findUploadedImage (contractAddress : jsstring) : option jsstring :=
  match getStorage store with
  | Resolved _ =>
      let collectionPath := lit "collections/" ++ toLowerCase contractAddress in
      match listAll store collectionPath with
      | Resolved items =>
          match find (fun item => startsWith (Firebase.name item) (lit "collection-"))
                     items with
          | None => None
          | Some collectionImage =>
              match getDownloadURL store collectionImage with
              | Resolved downloadURL => Some downloadURL
              | Rejected error => None
              end
          end
      | Rejected error => None
      end
  | Rejected error => None
  end.

Variable env : Env.
Variable now : Z.

Definition apiUrl : jsstring :=
  or_else (NEXT_PUBLIC_API_URL env) (lit "http://localhost:3000").

Definition websiteUrl : jsstring :=
  or_else (NEXT_PUBLIC_WEBSITE_URL env) (lit "http://localhost:3000").

(** The object literal of lines 41-61. *)
Definition build_metadata (uploadedImage : option jsstring) (tokenId : jsstring)
  : NFTMetadata :=
  {| MetadataRoute.name := lit "MyNFT #" ++ tokenId;
     MetadataRoute.description := lit "NFT #" ++ tokenId ++ lit " on the Nexus network.";
     MetadataRoute.image := or_else uploadedImage (apiUrl ++ lit "/api/image/" ++ tokenId);
     MetadataRoute.external_url := websiteUrl ++ lit "/nft/" ++ tokenId;
     MetadataRoute.attributes :=
       [ {| MetadataRoute.trait_type := lit "Token ID";
            MetadataRoute.value := VString tokenId;
            MetadataRoute.display_type := None |};
         {| MetadataRoute.trait_type := lit "Image Type";
            MetadataRoute.value := VString (if truthy_opt uploadedImage
                                            then lit "Uploaded" else lit "Generated");
            MetadataRoute.display_type := None |};
         {| MetadataRoute.trait_type := lit "Created";
            MetadataRoute.value := VNumber (now / 1000);
            MetadataRoute.display_type := Some (lit "date") |} ] |}.

Definition GET (request : Request) : Response Body :=
  let contractAddress := searchParams_get (searchParams request) (lit "contract") in
  let tokenId := searchParams_get (searchParams request) (lit "tokenId") in
  if negb (truthy_opt contractAddress) then
    mkResponse 400 [] (Error (lit "Contract address is required"))
  else if negb (truthy_opt tokenId) then
    mkResponse 400 [] (Error (lit "Token ID is required"))
  else
    let address := default [] contractAddress in
    let tokenId := default [] tokenId in
    let uploadedImage := findUploadedImage address in
    let metadata := build_metadata uploadedImage tokenId in
    mkResponse 200
      [(lit "Content-Type", lit "application/json");
       (lit "Cache-Control", lit "no-cache, no-store, must-revalidate")]
      (Document metadata).
End Handler.

End MetadataQueryRoute.

(** ** api/upload/route.ts *)

Module UploadRoute.
Import JS Firebase.

Record File := { name : jsstring; type : jsstring; bytes : list N }.

(** The three fields the handler reads with [formData.get]. *)
Record FormData := {
  file : option File;
  tokenId : option jsstring;
  contractAddress : option jsstring
}.

Inductive Body :=
| Uploaded (filename path : jsstring)
| Error (error : jsstring).

(** The character class [a-zA-Z0-9.-]. *)
Definition allowed (c : N) : bool :=
  ((97 <=? c) && (c <=? 122) || (65 <=? c) && (c <=? 90)
   || (48 <=? c) && (c <=? 57) || (c =? 46) || (c =? 45))%N.

(** [name.replace(/[^a-zA-Z0-9.-]/g, '')] *)
Definition sanitize (name : jsstring) : jsstring := filter (fun c => allowed c = true) name.

(** An object written to the store: the path given to [ref] and what
    [uploadBytes] received. *)
Record Write := {
  storagePath : jsstring;
  content : list N;
  metadata : UploadMetadata
}.

Section Handler.
Context {U : Unicode}.
Variable store : Store.
Variable now : Z.

Definition filename_of (f : File) : jsstring :=
  lit "collection-" ++ sanitize (name f).

Definition storagePath_of (f : File) (contractAddress : jsstring) : jsstring :=
  lit "collections/" ++ toLowerCase contractAddress ++ lit "/" ++ filename_of f.

(** The [catch] block: status 500 with [error.message || 'Upload failed']. *)
Definition failed (message : jsstring) : Response Body :=
  mkResponse 500 [] (Error (or_else (Some message) (lit "Upload failed"))).

(** The response, and the objects the request wrote to the store. *)
Definition POST (formData : FormData) : Response Body * list Write :=
  match file formData with
  | None => (mkResponse 400 [] (Error (lit "No file uploaded")), [])
  | Some f =>
      if negb (truthy_opt (contractAddress formData)) then
        (mkResponse 400 [] (Error (lit "Contract address is required")), [])
      else if negb (startsWith (type f) (lit "image/")) then
        (mkResponse 400 [] (Error (lit "File must be an image")), [])
      else
        let address := default [] (contractAddress formData) in
        let timestamp := now in
        let storagePath := storagePath_of f address in
        match getStorage store with
        | Rejected message => (failed message, [])
        | Resolved _ =>
          let meta :=
            {| contentType := type f;
               customMetadata :=
                 [(lit "contractAddress", toLowerCase address);
                  (lit "tokenId", or_else (tokenId formData) []);
                  (lit "originalName", name f);
                  (lit "uploadTimestamp", Number_toString timestamp)] |} in
          match uploadBytes store storagePath (bytes f) meta with
          | Resolved uploaded =>
              let written := [ {| storagePath := storagePath; content := bytes f;
                                  metadata := meta |} ] in
              match getDownloadURL store uploaded with
              | Resolved downloadURL =>
                  (mkResponse 200 [] (Uploaded downloadURL (fullPath uploaded)), written)
              | Rejected message => (failed message, written)
              end
          | Rejected message => (failed message, [])
          end
        end
  end.
End Handler.

End UploadRoute.

(** ** contracts/SimpleNFT.sol *)

Module SimpleNFT.

(** [address] and [uint256] values. *)
Abbreviation address := N.
Definition MAX_UINT256 : N := (2 ^ 256 - 1)%N.

Inductive Event :=
| Transfer (from to : address) (tokenId : N)
| MetadataUpdate (tokenId : N)
| BatchMetadataUpdate (fromTokenId toTokenId : N).

(** Why a call reverts. [Error] is a failed [require] with its reason,
    [Panic] a failed arithmetic check (code 0x11). *)
Inductive Failure :=
| OwnableUnauthorizedAccount (account : address)
| Error (reason : string)
| Panic (code : N)
| NotFound (tokenId : N)
| TransferUnauthorized (caller : address)
| TokenExists (tokenId : N)
| ReceiverRejected (receiver : address).

Inductive result (A : Type) :=
| Success (a : A)
| Revert (f : Failure).
Arguments Success {A}.
Arguments Revert {A}.

(** Storage: the three variables of [SimpleNFT], the owner kept by
    [Ownable], name, symbol, token owners and balances kept by [ERC721]. *)
Record State := {
  name : string;
  symbol : string;
  owner : address;
  _owners : gmap N address;
  _balances : gmap address N;
  _nextTokenId : N;
  _baseTokenURI : string;
  _metadataFrozen : bool
}.

(** A transaction that succeeds gives the new storage, the events it
    emitted and its return value; one that reverts changes nothing. *)
Abbreviation tx A := (result (State * list Event * A)).

(** [constructor(name, symbol, initialOwner)]; [_nextTokenId = 1]. *)
Definition constructor (name symbol : string) (initialOwner : address) : State :=
  {| name := name; symbol := symbol; owner := initialOwner;
     _owners := ∅; _balances := ∅;
     _nextTokenId := 1; _baseTokenURI := ""; _metadataFrozen := false |}.

(** Modelled from the spec: the [onlyOwner] modifier of the inherited
    [Ownable]. It runs before the body: a caller other than the owner is
    rejected, the rejection carrying the caller's address. *)
Definition onlyOwner {A} (s : State) (sender : address) (body : tx A) : tx A :=
  if decide (sender = owner s) then body
  else Revert (OwnableUnauthorizedAccount sender).

(** Modelled from the spec: [balanceOf] of the inherited [ERC721], the number
    of tokens an account owns. *)
Definition balanceOf (s : State) (a : address) : N := default 0%N (_balances s !! a).

(** Modelled from the spec: [_safeMint] of the inherited [ERC721]. A token
    id is never reused; the token's owner and the balance are set and the
    token-created event [Transfer(0, to, tokenId)] is emitted. [accepted]
    is the answer of the acceptance check on the receiver. *)
Definition _safeMint (s : State) (to : address) (tokenId : N) (accepted : bool)
  : result (State * list Event) :=
  match _owners s !! tokenId with
  | Some _ => Revert (TokenExists tokenId)
  | None =>
      if accepted then
        Success
          ({| name := name s; symbol := symbol s; owner := owner s;
              _owners := <[tokenId := to]> (_owners s);
              _balances := <[to := (balanceOf s to + 1)%N]> (_balances s);
              _nextTokenId := _nextTokenId s;
              _baseTokenURI := _baseTokenURI s;
              _metadataFrozen := _metadataFrozen s |},
           [Transfer 0 to tokenId])
      else Revert (ReceiverRejected to)
  end.

Definition set_nextTokenId (s : State) (n : N) : State :=
  {| name := name s; symbol := symbol s; owner := owner s;
     _owners := _owners s; _balances := _balances s;
     _nextTokenId := n;
     _baseTokenURI := _baseTokenURI s; _metadataFrozen := _metadataFrozen s |}.

(** [mint()]: [_nextTokenId++] is checked arithmetic. *)
Definition mint (s : State) (sender : address) (accepted : bool) : tx N :=
  let tokenId := _nextTokenId s in
  if decide (tokenId = MAX_UINT256) then Revert (Panic 17)
  else
    let s1 := set_nextTokenId s (tokenId + 1) in
    match _safeMint s1 sender tokenId accepted with
    | Success (s2, events) => Success (s2, events ++ [MetadataUpdate tokenId], tokenId)
    | Revert f => Revert f
    end.

Definition _baseURI (s : State) : string := _baseTokenURI s.

Definition setBaseURI (s : State) (sender : address) (baseURI : string) : tx unit :=
  onlyOwner s sender
    (if _metadataFrozen s then Revert (Error "Metadata is frozen")
     else
       Success
         ({| name := name s; symbol := symbol s; owner := owner s;
             _owners := _owners s; _balances := _balances s;
             _nextTokenId := _nextTokenId s;
             _baseTokenURI := baseURI;
             _metadataFrozen := _metadataFrozen s |},
          [BatchMetadataUpdate 1 MAX_UINT256], tt)).

Definition freezeMetadata (s : State) (sender : address) : tx unit :=
  onlyOwner s sender
    (Success
       ({| name := name s; symbol := symbol s; owner := owner s;
           _owners := _owners s; _balances := _balances s;
           _nextTokenId := _nextTokenId s;
           _baseTokenURI := _baseTokenURI s;
           _metadataFrozen := true |},
        [], tt)).

Definition isMetadataFrozen (s : State) : bool := _metadataFrozen s.

(** [totalSupply()]: the subtraction is checked. *)
Definition totalSupply (s : State) : result N :=
  if decide (_nextTokenId s = 0%N) then Revert (Panic 17)
  else Success (_nextTokenId s - 1)%N.

(** Modelled from the spec: [toString] of the imported [Strings] library,
    the decimal digits of a number, without padding. *)
Definition toString (n : N) : string := NilZero.string_of_uint (N.to_uint n).

(** Modelled from the spec: [tokenURI] of the inherited [ERC721], which
    reads the base URI through the overridden [_baseURI]. *)
Definition tokenURI (s : State) (tokenId : N) : result string :=
  match _owners s !! tokenId with
  | None => Revert (NotFound tokenId)
  | Some _ => Success (_baseURI s ++ toString tokenId)%string
  end.

(** Modelled from the spec: [ownerOf] of the inherited [ERC721]. *)
Definition ownerOf (s : State) (tokenId : N) : result address :=
  match _owners s !! tokenId with
  | None => Revert (NotFound tokenId)
  | Some a => Success a
  end.

(** Modelled from the spec: [transferFrom] of the inherited [ERC721]. No
    operation of the interface grants an approval, so the authorized
    caller is the token's owner, who is [from]. *)
Definition transferFrom (s : State) (sender from to : address) (tokenId : N) : tx unit :=
  match _owners s !! tokenId with
  | None => Revert (NotFound tokenId)
  | Some holder =>
      if decide (sender = from ∧ from = holder) then
        let s1 :=
          {| name := name s; symbol := symbol s; owner := owner s;
             _owners := _owners s;
             _balances := <[from := (balanceOf s from - 1)%N]> (_balances s);
             _nextTokenId := _nextTokenId s;
             _baseTokenURI := _baseTokenURI s;
             _metadataFrozen := _metadataFrozen s |} in
        Success
          ({| name := name s; symbol := symbol s; owner := owner s;
              _owners := <[tokenId := to]> (_owners s);
              _balances := <[to := (balanceOf s1 to + 1)%N]> (_balances s1);
              _nextTokenId := _nextTokenId s;
              _baseTokenURI := _baseTokenURI s;
              _metadataFrozen := _metadataFrozen s |},
           [Transfer from to tokenId], tt)
      else Revert (TransferUnauthorized sender)
  end.

(** *** Sequences of calls *)

(** A state-changing call with its caller; [Mint] carries the answer of
    the acceptance check made during that call. *)
Inductive Call :=
| Mint (sender : address) (accepted : bool)
| SetBaseURI (sender : address) (baseURI : string)
| FreezeMetadata (sender : address)
| TransferFrom (sender from to : address) (tokenId : N).

(** What a call returned. *)
Inductive Returned :=
| TokenId (tokenId : N)
| Unit.

Definition returning {A} (f : A -> Returned) (r : tx A) : tx Returned :=
  match r with
  | Success (s, events, a) => Success (s, events, f a)
  | Revert e => Revert e
  end.

Definition call (s : State) (c : Call) : tx Returned :=
  match c with
  | Mint sender accepted => returning TokenId (mint s sender accepted)
  | SetBaseURI sender baseURI => returning (fun _ => Unit) (setBaseURI s sender baseURI)
  | FreezeMetadata sender => returning (fun _ => Unit) (freezeMetadata s sender)
  | TransferFrom sender from to tokenId =>
      returning (fun _ => Unit) (transferFrom s sender from to tokenId)
  end.

(** The storage after a call: a reverted call leaves it as it was. *)
Definition after (s : State) (c : Call) : State :=
  match call s c with
  | Success (s', _, _) => s'
  | Revert _ => s
  end.

Definition run (s : State) (calls : list Call) : State := fold_left after calls s.

(** The token ids returned by the successful [mint] calls, in call order. *)
Fixpoint minted (s : State) (calls : list Call) : list N :=
  match calls with
  | [] => []
  | c :: rest =>
      match c, call s c with
      | Mint _ _, Success (_, _, TokenId tokenId) => tokenId :: minted (after s c) rest
      | _, _ => minted (after s c) rest
      end
  end.

End SimpleNFT.

(** ** String operations of the pages and components *)

Module JSText.
Import JS.

(** A call that returns, or throws a TypeError. *)
Inductive completion (A : Type) :=
| Return (a : A)
| TypeError.
Arguments Return {A}.
Arguments TypeError {A}.

(** [\w], the characters a-z, A-Z, 0-9 and the underscore; [\s] is
    [isWhiteSpace]. Without the [u] flag, the [i] flag adds no character to
    either class. *)
Definition isWordChar (c : N) : bool :=
  ((97 <=? c) && (c <=? 122) || (65 <=? c) && (c <=? 90)
   || (48 <=? c) && (c <=? 57) || (c =? 95))%N.

(** The characters [/[aeiou]/gi] matches. *)
Definition isVowel (c : N) : bool :=
  ((c =? 97) || (c =? 101) || (c =? 105) || (c =? 111) || (c =? 117)
   || (c =? 65) || (c =? 69) || (c =? 73) || (c =? 79) || (c =? 85))%N.

(** Upper-casing of one ASCII code unit. *)
Definition upper (c : N) : N :=
  if ((97 <=? c) && (c <=? 122))%N then (c - 32)%N else c.

(** [String.prototype.toUpperCase]: the Unicode tables of the runtime are no
    part of the sources; on a string of ASCII characters it upper-cases the
    letters a-z and leaves the rest. *)
Class UpperCase := {
  toUpperCase : jsstring -> jsstring;
  toUpperCase_ascii :
    forall s, Forall (fun c => (c < 128)%N) s -> toUpperCase s = map upper s
}.

(** [s.slice(start, end)] with integer arguments; [None] is an omitted [end]. *)
Definition slice (s : jsstring) (start : Z) (end_ : option Z) : jsstring :=
  let len := Z.of_nat (length s) in
  let clamp := fun k => if k <? 0 then Z.max (len + k) 0 else Z.min k len in
  let from := clamp start in
  let to := match end_ with Some e => clamp e | None => len end in
  take (Z.to_nat (Z.max (to - from) 0)) (drop (Z.to_nat from) s).

(** [s.split(/\s+/)]: the pieces between the maximal runs of white space;
    [current] is the piece being read and [in_space] says that the last
    character was white space. A string that starts (ends) with white space
    gives an empty first (last) piece, and the empty string gives one empty
    piece. *)
Fixpoint split_spaces (s current : jsstring) (in_space : bool) : list jsstring :=
  match s with
  | [] => [current]
  | c :: rest =>
      if isWhiteSpace c then
        if in_space then split_spaces rest [] true
        else current :: split_spaces rest [] true
      else split_spaces rest (current ++ [c]) false
  end.

Definition split_whitespace (s : jsstring) : list jsstring := split_spaces s [] false.

End JSText.

(** ** app/page.tsx: the collection symbol *)

Module HomePage.
Import JS JSText.

Section Symbol.
Context {UC : UpperCase}.

(** [word[0].toUpperCase()]: indexing an empty word gives undefined, and the
    method call on it throws. *)
Definition initial (word : jsstring) : completion jsstring :=
  match word with
  | c :: _ => Return (toUpperCase [c])
  | [] => TypeError
  end.

(** [words.map(word => word[0].toUpperCase())] *)
Fixpoint initials (words : list jsstring) : completion (list jsstring) :=
  match words with
  | [] => Return []
  | word :: rest =>
      match initial word with
      | Return i =>
          match initials rest with
          | Return others => Return (i :: others)
          | TypeError => TypeError
          end
      | TypeError => TypeError
      end
  end.

Definition generateNFTSymbol (name : jsstring) : completion jsstring :=
  let words :=
    split_whitespace (filter (fun c => isWordChar c || isWhiteSpace c = true) name) in
  if (length words =? 0)%nat then Return (lit "NFT")
  else if (length words =? 1)%nat then
    let word := toUpperCase (nth 0 words []) in
    if (length word <=? 4)%nat then Return word
    else
      let consonants := filter (fun c => isVowel c = false) word in
      if (3 <=? length consonants)%nat then Return (slice consonants 0 (Some 4))
      else Return (slice word 0 (Some 4))
  else
    match initials words with
    | Return letters => Return (slice (concat letters) 0 (Some 4))
    | TypeError => TypeError
    end.
End Symbol.

End HomePage.

(** ** components/NFTCard.tsx and components/AccountDisplay.tsx *)

Module Components.
Import JS JSText.

(** [formatAddress]; [None] is null or undefined. *)
Definition formatAddress (address : option jsstring) : jsstring :=
  match address with
  | Some a =>
      if truthy a then slice a 0 (Some 6) ++ lit "..." ++ slice a (-4) None
      else []
  | None => []
  end.

End Components.

(** ** test/SimpleNFT.test.ts: the helper of the contract tests *)

Module ContractTests.
Import SimpleNFT.

Definition ZeroAddress : address := 0%N.

(** The logs of a receipt are the events of the transaction. The helper
    looks for the first [Transfer] from the zero address. *)
Definition getTokenIdFromTx (logs : list Event) : option N :=
  match find (fun log => match log with
                         | Transfer from _ _ => bool_decide (from = ZeroAddress)
                         | _ => false
                         end) logs with
  | Some (Transfer _ _ tokenId) => Some tokenId
  | _ => None
  end.

End ContractTests.

(** ** app/collection/[address]/page.tsx: loading the gallery *)

Module CollectionPage.
Import JS Firebase.

(** What the page reads from the contract it is connected to. *)
Record Contract := {
  totalSupply : outcome Z;
  tokenURI : Z -> outcome jsstring
}.

(** The response of [fetch]: [response.ok] and [response.json()]. *)
Record FetchResponse := {
  ok : bool;
  json : outcome MetadataRoute.NFTMetadata
}.

Record NFT := {
  tokenId : jsstring;
  metadata : option MetadataRoute.NFTMetadata
}.

(** The two pieces of component state the function sets. *)
Record Gallery := {
  ownedNFTs : list NFT;
  isLoadingNFTs : bool
}.

Section Loading.
Variable fetch : jsstring -> outcome FetchResponse.

(** The body of the loop for one [i]: an error anywhere gives the card
    with no metadata. *)
Definition loadNFT (contract : Contract) (i : Z) : NFT :=
  match tokenURI contract i with
  | Resolved uri =>
      match fetch uri with
      | Resolved response =>
          if ok response then
            match json response with
            | Resolved metadata =>
                {| tokenId := Number_toString i; metadata := Some metadata |}
            | Rejected error => {| tokenId := Number_toString i; metadata := None |}
            end
          else {| tokenId := Number_toString i; metadata := None |}
      | Rejected error => {| tokenId := Number_toString i; metadata := None |}
      end
  | Rejected error => {| tokenId := Number_toString i; metadata := None |}
  end.

(** [fetchCollectionNFTs]. The loop counts in double precision: it ends
    when the total supply is below 2^53 and never ends otherwise ([None]),
    the counter no longer advancing at 2^53. *)
Definition fetchCollectionNFTs (contract : option Contract) (gallery : Gallery)
  : option Gallery :=
  match contract with
  | None => Some gallery
  | Some contract =>
      match totalSupply contract with
      | Resolved supply =>
          if supply <? 2 ^ 53 then
            let nfts :=
              fold_left (fun nfts i => nfts ++ [loadNFT contract i]) (seqZ 1 supply) [] in
            Some {| ownedNFTs := nfts; isLoadingNFTs := false |}
          else None
      | Rejected error =>
          Some {| ownedNFTs := ownedNFTs gallery; isLoadingNFTs := false |}
      end
  end.
End Loading.

End CollectionPage.

(** * Vocabulary of the properties *)

Module RegistrySpec.
Import SimpleNFT.

(** The storage invariant: the counter is positive, and the tokens that have
    an owner are those below the counter. *)
Definition wf (s : State) : Prop :=
  (1 <= _nextTokenId s)%N /\
  forall id, is_Some (_owners s !! id) <-> (1 <= id < _nextTokenId s)%N.

(** The ids [first, first + 1, ..., first + n - 1]. *)
Definition ids_from (first : N) (n : nat) : list N :=
  map (fun k => (first + N.of_nat k)%N) (seq 0 n).

(** The ids a single call mints: one for a successful [mint], none otherwise. *)
Definition minted_by (s : State) (c : Call) : list N := minted s [c].

(** The collection of scenario D: deployed by account 1, then frozen by it. *)
Definition frozen_collection : State :=
  after (constructor "Test NFT" "TNFT" 1) (FreezeMetadata 1).

End RegistrySpec.

Module SynthesizerSpec.
Import JS ImageRoute.

(** Signed 32-bit wrap-around, and the hash as the specification words it:
    [hash = (hash * 31 + charCode)] wrapped, folded over the character codes
    from 0. *)
Definition wrap32 (z : Z) : Z := (z + 2 ^ 31) mod 2 ^ 32 - 2 ^ 31.

Definition spec_hash (codes : list Z) : Z :=
  fold_left (fun hash charCode => wrap32 (hash * 31 + charCode)) codes 0.

(** The character codes of a string: the first code unit of each of its
    characters. *)
Definition charCodes (tokenId : jsstring) : list Z :=
  map (fun char => Z.of_N (hd 0%N char)) (Array_from tokenId).

Section Image.
Context {F : Float64}.

(** The background colour of a hue, with the fixed saturation 70% and
    lightness 60%. *)
Definition colour (hue : Z) : jsstring :=
  lit "hsl(" ++ Number_toString hue ++ lit ", 70%, 60%)".

(** The centre of circle [i] of [n]: on the ring of radius 100 around the
    middle (250, 250) of the picture, at the angle [i * (2 pi / n)]. *)
Definition ring_angle (n i : Z) : float :=
  fmul (of_int i) (fdiv (fmul (of_int 2) Math_PI) (of_int n)).

Definition ring_x (n i : Z) : float :=
  fadd (of_int 250) (fmul (Math_cos (ring_angle n i)) (of_int 100)).

Definition ring_y (n i : Z) : float :=
  fadd (of_int 250) (fmul (Math_sin (ring_angle n i)) (of_int 100)).

(** The element that draws one circle of radius [r] around (x, y). *)
Definition circle_element (x y : float) (r : Z) : jsstring :=
  tpl [""; "      <circle "; "        cx='"] ++ float_toString x ++
  tpl ["' "; "        cy='"] ++ float_toString y ++
  tpl ["' "; "        r='"] ++ Number_toString r ++
  tpl ["' "; "        fill='rgba(255,255,255,0.2)'"; "      />"; "    "].

(** The [n] circles of radius [r] on the ring, the first at angle 0. *)
Definition ring (n r : Z) : list jsstring :=
  map (fun i => circle_element (ring_x n i) (ring_y n i) r) (seqZ 0 n).

(** The picture of a token id for a background hue, a number of circles and
    their radius: the served document, from the svg start tag to the svg end
    tag, with the background gradient in the colour of the hue, the circles
    of the ring and the token id as label. *)
Definition picture (hue n r : Z) (tokenId : jsstring) : jsstring :=
  tpl ["<svg "; "        width='500' "; "        height='500' ";
       "        viewBox='0 0 500 500' ";
       "        xmlns='http://www.w3.org/2000/svg'";
       "        preserveAspectRatio='xMidYMid meet'"; "      >";
       "        <defs>";
       "          <linearGradient id='grad' x1='0%' y1='0%' x2='100%' y2='100%'>";
       "            <stop offset='0%' style='stop-color:"] ++ colour hue ++
  tpl [";stop-opacity:1' />";
       "            <stop offset='100%' style='stop-color:"] ++ colour hue ++
  tpl [";stop-opacity:0.7' />";
       "          </linearGradient>"; "        </defs>"; "        ";
       "        <!-- Background -->";
       "        <rect width='100%' height='100%' fill='url(#grad)'/>";
       "        "; "        <!-- Pattern -->"; "        "] ++
  concat (ring n r) ++
  tpl [""; "        "; "        <!-- Token ID -->"; "        <text ";
       "          x='50%' "; "          y='50%' ";
       "          dominant-baseline='middle' ";
       "          text-anchor='middle' ";
       "          font-family='Arial, sans-serif' ";
       "          font-size='48' "; "          font-weight='bold' ";
       "          fill='white'";
       "          filter='drop-shadow(0 2px 4px rgba(0,0,0,0.2))'";
       "        >"; "          #"] ++ tokenId ++
  tpl [""; "        </text>"; "      </svg>"].

End Image.

(** A token id whose hash has wrapped around to a negative number. *)
Definition wrapped_id : jsstring := lit "1700000".

End SynthesizerSpec.

Module ResolverSpec.
Import JS Constants Firebase MetadataRoute.

(** A request parameter is missing when [searchParams.get] gives null or
    the empty string: the values the guard [!param] rejects. *)
Definition missing (param : option jsstring) : Prop :=
  param = None \/ param = Some [].

(** The value of the attribute whose trait is "Image Type". *)
Definition image_type (metadata : NFTMetadata) : option AttributeValue :=
  value <$> find (fun attr => bool_decide (trait_type attr = lit "Image Type"))
                 (attributes metadata).

(** A successful response whose document has the given image and image type. *)
Definition serves (response : Response Body) (url : jsstring) (type : string) : Prop :=
  status response = 200 /\
  exists metadata,
    body response = Document metadata /\
    image metadata = url /\
    image_type metadata = Some (VString (lit type)).

(** The outcome of looking an uploaded collection asset up in the store, for
    a contract address: [Some url] when the first object named
    "collection-..." under [collections/<lower-cased address>] exists and
    resolves to [url]; [None] when there is none, or when a call into the
    store fails. *)
Inductive lookup {U : Unicode} (store : Store) (address : jsstring)
  : option jsstring -> Prop :=
| storage_unavailable message :
    getStorage store = Rejected message ->
    lookup store address None
| listing_failed message :
    listAll store (lit "collections/" ++ toLowerCase address) = Rejected message ->
    lookup store address None
| no_collection_asset items :
    listAll store (lit "collections/" ++ toLowerCase address) = Resolved items ->
    find (fun item => startsWith (Firebase.name item) (lit "collection-")) items = None ->
    lookup store address None
| url_unavailable items item message :
    listAll store (lit "collections/" ++ toLowerCase address) = Resolved items ->
    find (fun item => startsWith (Firebase.name item) (lit "collection-")) items
      = Some item ->
    getDownloadURL store item = Rejected message ->
    lookup store address None
| asset_resolved u items item url :
    getStorage store = Resolved u ->
    listAll store (lit "collections/" ++ toLowerCase address) = Resolved items ->
    find (fun item => startsWith (Firebase.name item) (lit "collection-")) items
      = Some item ->
    getDownloadURL store item = Resolved url ->
    lookup store address (Some url).

(** The comma-separated directives of a [Cache-Control] value. *)
Fixpoint split_commas (s current : jsstring) : list jsstring :=
  match s with
  | [] => [current]
  | c :: rest =>
      if (c =? 44)%N then current :: split_commas rest []
      else split_commas rest (current ++ [c])
  end.

Definition directives (value : jsstring) : list jsstring :=
  map trim (split_commas value []).

(** Lower-casing of the letters A-Z, for the examples. *)
Definition asciiLower : Unicode :=
  {| toLowerCase := map (fun c => if ((65 <=? c) && (c <=? 90))%N then (c + 32)%N else c) |}.

(** A store holding one collection image for the address 0xabc, a server
    environment, and a request for token 7 of that collection. *)
Definition sample_item : StorageReference :=
  {| Firebase.name := lit "collection-cat.png";
     fullPath := lit "collections/0xabc/collection-cat.png" |}.

Definition sample_store : Store :=
  {| getStorage := Resolved tt;
     listAll := fun path =>
       if decide (path = lit "collections/0xabc") then Resolved [sample_item]
       else Resolved [];
     getDownloadURL := fun item => Resolved (lit "https://storage.example/" ++ fullPath item);
     uploadBytes := fun path _ _ =>
       Resolved {| Firebase.name := lit "collection-cat.png"; fullPath := path |} |}.

Definition sample_env : Env :=
  {| window_origin := None;
     NEXT_PUBLIC_WEBSITE_URL := Some (lit "https://nft.example");
     NEXT_PUBLIC_API_URL := Some (lit "https://nft.example") |}.

Definition sample_request : Request :=
  {| searchParams := [(lit "contract", lit "0xABC"); (lit "tokenId", lit "7")] |}.

End ResolverSpec.

Module UploadSpec.
Import JS Firebase UploadRoute.

(** The path separator. *)
Definition slash : N := 47.

(** An upload of a file whose name tries to climb out of the collection. *)
Definition sample_upload : FormData :=
  {| file := Some {| name := lit "../../evil cat.png"; type := lit "image/png";
                     bytes := [137; 80; 78; 71]%N |};
     tokenId := None;
     contractAddress := Some (lit "0xABC") |}.

End UploadSpec.

Module LifecycleSpec.
Import SimpleNFT.

(** The caller of a call. *)
Definition sender_of (c : Call) : address :=
  match c with
  | Mint sender _ => sender
  | SetBaseURI sender _ => sender
  | FreezeMetadata sender => sender
  | TransferFrom sender _ _ _ => sender
  end.

(** The base URIs of the [setBaseURI] calls that succeeded, in call order. *)
Fixpoint accepted_uris (s : State) (calls : list Call) : list string :=
  match calls with
  | [] => []
  | c :: rest =>
      match c, call s c with
      | SetBaseURI _ baseURI, Success _ => baseURI :: accepted_uris (after s c) rest
      | _, _ => accepted_uris (after s c) rest
      end
  end.

(** A small history of calls by accounts other than the owner, account 1:
    two mints, two attempts at administration, a transfer. *)
Definition sample_history : list Call :=
  [Mint 2 true; Mint 3 true; SetBaseURI 2 "https://evil/"; FreezeMetadata 3;
   TransferFrom 2 2 5 1].

End LifecycleSpec.

Module SymbolSpec.
Import JS JSText HomePage.

(** Upper-casing of the letters a-z, for the examples. *)
Definition asciiUpper : UpperCase :=
  {| toUpperCase := map upper; toUpperCase_ascii := fun s _ => eq_refl |}.

(** The characters of a generated symbol: A-Z, 0-9 and the underscore. *)
Definition isSymbolChar (c : N) : bool :=
  ((65 <=? c) && (c <=? 90) || (48 <=? c) && (c <=? 57) || (c =? 95))%N.

(** The name after [replace(/[^\w\s]/gi, '')]. *)
Definition cleaned (name : jsstring) : jsstring :=
  filter (fun c => isWordChar c || isWhiteSpace c = true) name.

Definition starts_with_space (s : jsstring) : Prop :=
  exists c rest, s = c :: rest /\ isWhiteSpace c = true.

Definition ends_with_space (s : jsstring) : Prop :=
  exists front c, s = front ++ [c] /\ isWhiteSpace c = true.

End SymbolSpec.

Module GallerySpec.
Import JS Firebase CollectionPage.

(** The metadata a URI serves to the gallery: the parsed body of a
    successful response, null otherwise. *)
Definition served (fetch : jsstring -> outcome FetchResponse) (uri : jsstring)
  : option MetadataRoute.NFTMetadata :=
  match fetch uri with
  | Resolved response =>
      if ok response then
        match json response with
        | Resolved metadata => Some metadata
        | Rejected _ => None
        end
      else None
  | Rejected _ => None
  end.

(** The page's view of a collection in a given state: the two calls it makes
    go to the contract's [totalSupply] and [tokenURI]; a revert rejects the
    call; [decode] turns the returned string into a JavaScript string. *)
Definition connect (decode : string -> jsstring) (s : SimpleNFT.State) : Contract :=
  {| totalSupply :=
       match SimpleNFT.totalSupply s with
       | SimpleNFT.Success n => Resolved (Z.of_N n)
       | SimpleNFT.Revert _ => Rejected (lit "execution reverted")
       end;
     tokenURI := fun i =>
       match SimpleNFT.tokenURI s (Z.to_N i) with
       | SimpleNFT.Success uri => Resolved (decode uri)
       | SimpleNFT.Revert _ => Rejected (lit "execution reverted")
       end |}.

(** The card of a minted token. *)
Definition card (fetch : jsstring -> outcome FetchResponse) (decode : string -> jsstring)
    (s : SimpleNFT.State) (id : N) : NFT :=
  {| tokenId := Number_toString (Z.of_N id);
     metadata := served fetch (decode (SimpleNFT._baseTokenURI s ++ SimpleNFT.toString id)%string) |}.

(** A server that answers every request with an error status, and a
    contract whose second token's URI cannot be read. *)
Definition failing_fetch (uri : jsstring) : outcome FetchResponse :=
  Resolved {| ok := false; json := Rejected (lit "Unexpected end of JSON input") |}.

Definition sample_contract : Contract :=
  {| totalSupply := Resolved 3;
     tokenURI := fun i =>
       if i =? 2 then Rejected (lit "execution reverted")
       else Resolved (lit "https://nft.example/api/metadata/?tokenId=" ++ Number_toString i) |}.

End GallerySpec.

Module PictureSpec.
Import JS ImageRoute.

(** The hash without wrap-around: the value of the token id read as a
    number in base 31 whose digits are the character codes. *)
Definition plain_hash (tokenId : jsstring) : Z :=
  fold_left (fun hash c => hash * 31 + Z.of_N c) tokenId 0.

(** A decimal digit. *)
Definition isDigit (c : N) : Prop := (48 <= c <= 57)%N.

(** The end of every picture. *)
Definition closing : jsstring := tpl [""; "        </text>"; "      </svg>"].

End PictureSpec.

Module SharedStoreSpec.
Import JS Firebase ResolverSpec.

(** The directory of the collection 0xabc some time after the upload of
    cat.png: it lists, in the order of their names, a note that is no
    collection image, the uploaded image, and the image of another upload. *)
Definition note_item : StorageReference :=
  {| Firebase.name := lit "README.txt";
     fullPath := lit "collections/0xabc/README.txt" |}.

Definition other_item : StorageReference :=
  {| Firebase.name := lit "collection-dog.png";
     fullPath := lit "collections/0xabc/collection-dog.png" |}.

Definition crowded_store : Store :=
  {| getStorage := Resolved tt;
     listAll := fun path =>
       if decide (path = lit "collections/0xabc")
       then Resolved [note_item; sample_item; other_item]
       else Resolved [];
     getDownloadURL := fun item => Resolved (lit "https://storage.example/" ++ fullPath item);
     uploadBytes := fun path _ _ =>
       Resolved {| Firebase.name := lit "collection-cat.png"; fullPath := path |} |}.

End SharedStoreSpec.

(** * Properties of the token registry *)

Module Registry.
Import SimpleNFT RegistrySpec.

Lemma wf_constructor name symbol initialOwner :
  wf (constructor name symbol initialOwner).
Proof.
  split; simpl; [lia|].
  intros id. rewrite lookup_empty. split.
  - intros [x Hx]. discriminate.
  - lia.
Qed.

(** A successful mint returns the counter and advances it by one. *)
Lemma mint_success s sender accepted s' events tokenId :
  mint s sender accepted = Success (s', events, tokenId) ->
  tokenId = _nextTokenId s /\
  _nextTokenId s' = (_nextTokenId s + 1)%N /\
  _nextTokenId s <> MAX_UINT256 /\
  _owners s' = <[tokenId := sender]> (_owners s) /\
  _baseTokenURI s' = _baseTokenURI s /\
  _metadataFrozen s' = _metadataFrozen s /\
  owner s' = owner s.
Proof.
  unfold mint, _safeMint. case_decide as Hmax; [discriminate|].
  simpl. destruct (_owners s !! _nextTokenId s); [discriminate|].
  destruct accepted; [|discriminate].
  intros [= <- <- <-]. simpl. by split_and!.
Qed.

(** On a well-formed state the only obstacles to a mint are the counter's
    overflow and the receiver's refusal. *)
Lemma mint_succeeds s sender :
  wf s -> _nextTokenId s <> MAX_UINT256 ->
  exists s' events, mint s sender true = Success (s', events, _nextTokenId s).
Proof.
  intros [Hpos Hdom] Hmax. unfold mint, _safeMint.
  case_decide; [done|]. simpl.
  destruct (_owners s !! _nextTokenId s) eqn:Hown.
  - assert (is_Some (_owners s !! _nextTokenId s)) as Hs by eauto.
    apply Hdom in Hs. lia.
  - eauto.
Qed.

Lemma setBaseURI_success s sender baseURI s' events u :
  setBaseURI s sender baseURI = Success (s', events, u) ->
  _nextTokenId s' = _nextTokenId s /\ _owners s' = _owners s /\
  _metadataFrozen s' = _metadataFrozen s /\ _metadataFrozen s = false /\
  owner s' = owner s.
Proof.
  unfold setBaseURI, onlyOwner. case_decide; [|discriminate].
  destruct (_metadataFrozen s) eqn:Hf; [discriminate|].
  intros [= <- <- <-]. simpl. by split_and!.
Qed.

Lemma freezeMetadata_success s sender s' events u :
  freezeMetadata s sender = Success (s', events, u) ->
  _nextTokenId s' = _nextTokenId s /\ _owners s' = _owners s /\
  _baseTokenURI s' = _baseTokenURI s /\ _metadataFrozen s' = true /\
  owner s' = owner s.
Proof.
  unfold freezeMetadata, onlyOwner. case_decide; [|discriminate].
  intros [= <- <- <-]. simpl. by split_and!.
Qed.

Lemma transferFrom_success s sender from to tokenId s' events u :
  transferFrom s sender from to tokenId = Success (s', events, u) ->
  _nextTokenId s' = _nextTokenId s /\
  is_Some (_owners s !! tokenId) /\ _owners s' = <[tokenId := to]> (_owners s) /\
  _baseTokenURI s' = _baseTokenURI s /\ _metadataFrozen s' = _metadataFrozen s /\
  owner s' = owner s.
Proof.
  unfold transferFrom. destruct (_owners s !! tokenId) eqn:Hown; [|discriminate].
  case_decide; [|discriminate].
  intros [= <- <- <-]. simpl. by split_and!; eauto.
Qed.

(** What a call does to the counter, the frozen flag, the base URI and the
    owner, whether it succeeds or reverts. *)
Lemma after_cases s c :
  (after s c = s) \/
  (exists sender accepted s' events,
      c = Mint sender accepted /\
      mint s sender accepted = Success (s', events, _nextTokenId s) /\ after s c = s') \/
  (exists sender baseURI s' events,
      c = SetBaseURI sender baseURI /\
      setBaseURI s sender baseURI = Success (s', events, tt) /\ after s c = s') \/
  (exists sender s' events,
      c = FreezeMetadata sender /\
      freezeMetadata s sender = Success (s', events, tt) /\ after s c = s') \/
  (exists sender from to tokenId s' events,
      c = TransferFrom sender from to tokenId /\
      transferFrom s sender from to tokenId = Success (s', events, tt) /\ after s c = s').
Proof.
  unfold after. destruct c as [sender accepted|sender baseURI|sender|sender from to tokenId]; simpl.
  - destruct (mint s sender accepted) as [[[s' events] tokenId]|f] eqn:Hm; simpl; [|by left].
    right; left. destruct (mint_success _ _ _ _ _ _ Hm) as [-> _]. eauto 10.
  - destruct (setBaseURI s sender baseURI) as [[[s' events] []]|f] eqn:Hm; simpl; [|by left].
    right; right; left. eauto 10.
  - destruct (freezeMetadata s sender) as [[[s' events] []]|f] eqn:Hm; simpl; [|by left].
    right; right; right; left. eauto 10.
  - destruct (transferFrom s sender from to tokenId) as [[[s' events] []]|f] eqn:Hm; simpl;
      [|by left].
    right; right; right; right. eauto 10.
Qed.

Lemma wf_after s c : wf s -> wf (after s c).
Proof.
  intros [Hpos Hdom].
  destruct (after_cases s c) as [->|[H|[H|[H|H]]]]; [done|..].
  - destruct H as (sender & accepted & s' & events & -> & Hm & ->).
    destruct (mint_success _ _ _ _ _ _ Hm) as (_ & Hn & _ & Ho & _).
    split; [lia|]. intros id. rewrite Hn, Ho, lookup_insert_is_Some, Hdom. lia.
  - destruct H as (sender & baseURI & s' & events & -> & Hm & ->).
    destruct (setBaseURI_success _ _ _ _ _ _ Hm) as (Hn & Ho & _).
    split; [lia|]. intros id. rewrite Hn, Ho. apply Hdom.
  - destruct H as (sender & s' & events & -> & Hm & ->).
    destruct (freezeMetadata_success _ _ _ _ _ Hm) as (Hn & Ho & _).
    split; [lia|]. intros id. rewrite Hn, Ho. apply Hdom.
  - destruct H as (sender & from & to & tokenId & s' & events & -> & Hm & ->).
    destruct (transferFrom_success _ _ _ _ _ _ _ _ Hm) as (Hn & Hs & Ho & _).
    split; [lia|]. intros id. rewrite Hn, Ho, lookup_insert_is_Some.
    apply Hdom in Hs. rewrite Hdom.
    destruct (decide (tokenId = id)) as [<-|Hne]; intuition lia.
Qed.

Lemma wf_run calls : forall s, wf s -> wf (run s calls).
Proof.
  induction calls as [|c calls IH]; intros s Hs; simpl; [done|].
  apply IH, wf_after, Hs.
Qed.

Lemma ids_from_S first n : ids_from first (S n) = first :: ids_from (first + 1) n.
Proof.
  unfold ids_from. simpl. rewrite N.add_0_r. f_equal.
  rewrite <- seq_shift, map_map. apply map_ext. intros k. lia.
Qed.

Lemma ids_from_app first n m :
  ids_from first (n + m) = ids_from first n ++ ids_from (first + N.of_nat n) m.
Proof.
  revert first. induction n as [|n IH]; intros first.
  - simpl. by rewrite N.add_0_r.
  - change (S n + m)%nat with (S (n + m)). rewrite !ids_from_S, IH. simpl.
    do 3 f_equal. lia.
Qed.

Lemma minted_cons s c rest :
  minted s (c :: rest) = minted_by s c ++ minted (after s c) rest.
Proof.
  unfold minted_by. simpl.
  destruct c; try reflexivity.
  destruct (mint s sender accepted) as [[[s' events] tokenId]|f]; reflexivity.
Qed.

(** One call: the ids it mints start at the counter, and the counter
    advances by their number. *)
Lemma minted_by_counter s c :
  minted_by s c = ids_from (_nextTokenId s) (length (minted_by s c)) /\
  _nextTokenId (after s c) = (_nextTokenId s + N.of_nat (length (minted_by s c)))%N.
Proof.
  unfold minted_by, after.
  destruct c as [sender accepted|sender baseURI|sender|sender from to tokenId]; simpl.
  - destruct (mint s sender accepted) as [[[s' events] tokenId]|f] eqn:Hm; simpl.
    + destruct (mint_success _ _ _ _ _ _ Hm) as (-> & Hn & _).
      split; [by rewrite ids_from_S|lia].
    + split; [done|lia].
  - destruct (setBaseURI s sender baseURI) as [[[s' events] []]|f] eqn:Hm; simpl.
    + destruct (setBaseURI_success _ _ _ _ _ _ Hm) as (Hn & _). split; [done|lia].
    + split; [done|lia].
  - destruct (freezeMetadata s sender) as [[[s' events] []]|f] eqn:Hm; simpl.
    + destruct (freezeMetadata_success _ _ _ _ _ Hm) as (Hn & _). split; [done|lia].
    + split; [done|lia].
  - destruct (transferFrom s sender from to tokenId) as [[[s' events] []]|f] eqn:Hm; simpl.
    + destruct (transferFrom_success _ _ _ _ _ _ _ _ Hm) as (Hn & _). split; [done|lia].
    + split; [done|lia].
Qed.

(** Any sequence of calls, from any state: the minted ids are consecutive
    from the counter, which advances by their number. *)
Lemma minted_counter calls : forall s,
  minted s calls = ids_from (_nextTokenId s) (length (minted s calls)) /\
  _nextTokenId (run s calls) = (_nextTokenId s + N.of_nat (length (minted s calls)))%N.
Proof.
  induction calls as [|c calls IH]; intros s.
  - simpl. split; [done|lia].
  - rewrite minted_cons. simpl run.
    destruct (minted_by_counter s c) as [Hc Hn].
    destruct (IH (after s c)) as [Hrest Hrun].
    rewrite length_app, ids_from_app. split.
    + rewrite <- Hc, <- Hn, <- Hrest. done.
    + rewrite Hrun, Hn. lia.
Qed.

Lemma ids_from_1 n : ids_from 1 n = map N.of_nat (seq 1 n).
Proof.
  unfold ids_from. rewrite <- seq_shift, map_map. apply map_ext. intros k. lia.
Qed.

(** C1. On a deployed collection, whatever calls are made and by whom, the
    token ids returned by the successful [mint] calls are 1, 2, 3, ... in
    call order, and [totalSupply()] afterwards returns their number. *)
Theorem mint_ids_sequential name symbol initialOwner (calls : list Call) :
  let s0 := constructor name symbol initialOwner in
  let n := length (minted s0 calls) in
  minted s0 calls = map N.of_nat (seq 1 n) /\
  totalSupply (run s0 calls) = Success (N.of_nat n).
Proof.
  intros s0 n.
  destruct (minted_counter calls s0) as [Hids Hnext].
  fold n in Hids, Hnext. change (_nextTokenId s0) with 1%N in Hids, Hnext.
  split.
  - by rewrite Hids at 1; rewrite ids_from_1.
  - unfold totalSupply. rewrite Hnext. case_decide; [lia|]. f_equal. lia.
Qed.

(** The tokens with an owner are the minted ones. *)
Lemma owned_iff_minted name symbol initialOwner (calls : list Call) tokenId :
  let s0 := constructor name symbol initialOwner in
  is_Some (_owners (run s0 calls) !! tokenId) <-> In tokenId (minted s0 calls).
Proof.
  intros s0.
  destruct (wf_run calls s0 (wf_constructor _ _ _)) as [_ Hdom].
  destruct (minted_counter calls s0) as [Hids Hnext].
  change (_nextTokenId s0) with 1%N in Hids, Hnext.
  rewrite Hdom, Hnext. clear Hdom Hnext.
  remember (length (minted s0 calls)) as n eqn:Hn. clear Hn.
  rewrite Hids, ids_from_1, in_map_iff. split.
  - intros H. exists (N.to_nat tokenId). rewrite in_seq. lia.
  - intros (k & <- & Hk). apply in_seq in Hk. lia.
Qed.

Lemma nzhead_not_D0 d d' : Decimal.nzhead d <> Decimal.D0 d'.
Proof. induction d; simpl; congruence. Qed.

(** The decimal digits of a positive number do not start with 0. *)
Lemma toString_no_padding (n : N) :
  n <> 0%N -> String.get 0 (toString n) <> Some "0"%char.
Proof.
  intros Hn. unfold toString.
  pose proof (DecimalN.Unsigned.to_of (N.to_uint n)) as Hnorm.
  rewrite DecimalN.Unsigned.of_to in Hnorm.
  destruct (N.to_uint n) as [|d| | | | | | | | |] eqn:Hd; simpl; try congruence.
  { destruct n as [|p]; [done|]. by apply DecimalPos.Unsigned.to_uint_nonnil in Hd. }
  exfalso. rewrite DecimalFacts.unorm_D0 in Hnorm.
  destruct (Decimal.nzhead d) eqn:Hz;
    [| rewrite DecimalFacts.unorm_nzhead in Hnorm by congruence;
       symmetry in Hnorm; by apply nzhead_not_D0 in Hnorm ..].
  apply DecimalFacts.unorm_0 in Hz. rewrite Hz in Hnorm.
  injection Hnorm as ->. apply Hn, DecimalN.Unsigned.to_uint_inj. by rewrite Hd.
Qed.

(** The digits read back as the number. *)
Lemma toString_decimal (n : N) :
  NilZero.uint_of_string (toString n) = Some (N.to_uint n).
Proof.
  unfold toString. apply NilZero.usu.
  destruct n as [|p]; [discriminate|]. apply DecimalPos.Unsigned.to_uint_nonnil.
Qed.

(** C3. [tokenURI(tokenId)] on a deployed collection, after any calls:
    NotFound for a token id that no successful [mint] returned; for a
    minted one the stored base URI followed by the decimal digits of the id,
    which read back as the id and carry no leading zero. *)
Theorem tokenURI_minted_or_not_found name symbol initialOwner
    (calls : list Call) (tokenId : N) :
  let s0 := constructor name symbol initialOwner in
  let s := run s0 calls in
  (~ In tokenId (minted s0 calls) -> tokenURI s tokenId = Revert (NotFound tokenId)) /\
  (In tokenId (minted s0 calls) ->
   tokenURI s tokenId = Success (_baseTokenURI s ++ toString tokenId)%string) /\
  NilZero.uint_of_string (toString tokenId) = Some (N.to_uint tokenId) /\
  (tokenId <> 0%N -> String.get 0 (toString tokenId) <> Some "0"%char).
Proof.
  cbv zeta.
  pose proof (owned_iff_minted name symbol initialOwner calls tokenId) as Hown.
  cbv zeta in Hown. unfold tokenURI, _baseURI.
  split_and!.
  - intros Hnot. destruct (_owners _ !! tokenId) eqn:Ho; [|done].
    exfalso. apply Hnot, Hown. eauto.
  - intros Hin. apply Hown in Hin as [holder ->]. done.
  - apply toString_decimal.
  - apply toString_no_padding.
Qed.

(** Once the flag is set, a call changes neither the flag nor the base URI. *)
Lemma frozen_after s c :
  _metadataFrozen s = true ->
  _metadataFrozen (after s c) = true /\ _baseTokenURI (after s c) = _baseTokenURI s.
Proof.
  intros Hf.
  destruct (after_cases s c) as [->|[H|[H|[H|H]]]]; [done|..].
  - destruct H as (sender & accepted & s' & events & -> & Hm & ->).
    destruct (mint_success _ _ _ _ _ _ Hm) as (_ & _ & _ & _ & Hb & Hz & _).
    by rewrite Hb, Hz.
  - destruct H as (sender & baseURI & s' & events & -> & Hm & ->).
    destruct (setBaseURI_success _ _ _ _ _ _ Hm) as (_ & _ & _ & Hz & _). congruence.
  - destruct H as (sender & s' & events & -> & Hm & ->).
    destruct (freezeMetadata_success _ _ _ _ _ Hm) as (_ & _ & Hb & Hz & _). done.
  - destruct H as (sender & from & to & tokenId & s' & events & -> & Hm & ->).
    destruct (transferFrom_success _ _ _ _ _ _ _ _ Hm) as (_ & _ & _ & Hb & Hz & _).
    by rewrite Hb, Hz.
Qed.

Lemma frozen_run calls : forall s,
  _metadataFrozen s = true ->
  _metadataFrozen (run s calls) = true /\ _baseTokenURI (run s calls) = _baseTokenURI s.
Proof.
  induction calls as [|c calls IH]; intros s Hf; simpl; [done|].
  destruct (frozen_after s c Hf) as [Hf' Hb].
  destruct (IH _ Hf') as [Hf'' Hb']. split; [done|congruence].
Qed.

(** C2, as stated, fails for a caller who is not the owner: the owner gate
    runs first and the call signals Unauthorized, not MetadataFrozen. *)
Lemma setBaseURI_frozen_stranger_counterexample :
  isMetadataFrozen frozen_collection = true /\
  setBaseURI frozen_collection 2 "https://y/" = Revert (OwnableUnauthorizedAccount 2) /\
  setBaseURI frozen_collection 2 "https://y/" <> Revert (Error "Metadata is frozen").
Proof. split_and!; [reflexivity|reflexivity|discriminate]. Qed.

(** C2, amended. After [freezeMetadata()] has succeeded, and whatever calls
    follow, every [setBaseURI] call reverts and leaves the storage, so the
    base URI, as it was when the collection was frozen: the owner's call
    with "Metadata is frozen", any other caller's with Unauthorized carrying
    the caller's address. *)
Theorem setBaseURI_rejected_after_freeze s0 freezer s1 events
    (calls : list Call) sender baseURI :
  freezeMetadata s0 freezer = Success (s1, events, tt) ->
  let s := run s1 calls in
  setBaseURI s sender baseURI =
    Revert (if decide (sender = owner s) then Error "Metadata is frozen"
            else OwnableUnauthorizedAccount sender) /\
  after s (SetBaseURI sender baseURI) = s /\
  _baseTokenURI (run s1 (calls ++ [SetBaseURI sender baseURI])) = _baseTokenURI s0.
Proof.
  intros Hfreeze s.
  destruct (freezeMetadata_success _ _ _ _ _ Hfreeze) as (_ & _ & Hb & Hf & _).
  destruct (frozen_run calls s1 Hf) as [Hfs Hbs]. fold s in Hfs, Hbs.
  assert (setBaseURI s sender baseURI =
            Revert (if decide (sender = owner s) then Error "Metadata is frozen"
                    else OwnableUnauthorizedAccount sender)) as Hset.
  { unfold setBaseURI, onlyOwner. case_decide; [|done]. by rewrite Hfs. }
  assert (after s (SetBaseURI sender baseURI) = s) as Hafter.
  { unfold after. simpl. by rewrite Hset. }
  split_and!; [done|done|].
  unfold run. rewrite fold_left_app. simpl. fold (run s1 calls). fold s.
  rewrite Hafter. congruence.
Qed.

Lemma setBaseURI_rejected_after_freeze_witness :
  let s0 := constructor "Test NFT" "TNFT" 1 in
  let calls := [Mint 2 true; SetBaseURI 1 "https://y/"] in
  let s := run frozen_collection calls in
  freezeMetadata s0 1 = Success (frozen_collection, [], tt) /\
  setBaseURI s 1 "https://z/" = Revert (Error "Metadata is frozen") /\
  after s (SetBaseURI 1 "https://z/") = s /\
  _baseTokenURI (run frozen_collection (calls ++ [SetBaseURI 1 "https://z/"])) = "".
Proof.
  split; [reflexivity|].
  apply (setBaseURI_rejected_after_freeze
           (constructor "Test NFT" "TNFT" 1) 1 frozen_collection []
           [Mint 2 true; SetBaseURI 1 "https://y/"] 1 "https://z/").
  reflexivity.
Defined.

(** C4. The frozen flag is a one-way latch: once it is set, no call (by
    anyone, successful or reverted) and no sequence of calls clears it, and
    a further [freezeMetadata()] by the owner succeeds, emits nothing and
    leaves the storage as it was. *)
Theorem frozen_is_a_latch s :
  isMetadataFrozen s = true ->
  (forall c, isMetadataFrozen (after s c) = true) /\
  (forall calls, isMetadataFrozen (run s calls) = true) /\
  freezeMetadata s (owner s) = Success (s, [], tt).
Proof.
  unfold isMetadataFrozen. intros Hf. split_and!.
  - intros c. apply frozen_after, Hf.
  - intros calls. apply frozen_run, Hf.
  - unfold freezeMetadata, onlyOwner. case_decide; [|done].
    destruct s; simpl in *. by subst.
Qed.

Lemma frozen_is_a_latch_witness :
  isMetadataFrozen frozen_collection = true /\
  (forall c, isMetadataFrozen (after frozen_collection c) = true) /\
  (forall calls, isMetadataFrozen (run frozen_collection calls) = true) /\
  freezeMetadata frozen_collection (owner frozen_collection)
    = Success (frozen_collection, [], tt).
Proof.
  split; [reflexivity|]. apply (frozen_is_a_latch frozen_collection). reflexivity.
Defined.

(** Scenario B: three mints give the ids 1, 2, 3 and a total supply of 3. *)
Example three_mints :
  let s0 := constructor "Test NFT" "TNFT" 1 in
  let calls := [Mint 1 true; Mint 2 true; Mint 1 true] in
  minted s0 calls = [1; 2; 3]%N /\ totalSupply (run s0 calls) = Success 3%N.
Proof. split; reflexivity. Qed.

(** A reverted mint consumes no id. *)
Example rejected_mint_uses_no_id :
  let s0 := constructor "Test NFT" "TNFT" 1 in
  let calls := [Mint 1 true; Mint 7 false; SetBaseURI 1 "https://x/"; Mint 2 true] in
  minted s0 calls = [1; 2]%N /\
  tokenURI (run s0 calls) 2 = Success "https://x/2" /\
  tokenURI (run s0 calls) 3 = Revert (NotFound 3).
Proof. split_and!; reflexivity. Qed.

End Registry.

(** * Properties of the image synthesizer *)

Module Synthesizer.
Import JS ImageRoute SynthesizerSpec.

Lemma ToInt32_range z : - 2 ^ 31 <= ToInt32 z < 2 ^ 31.
Proof.
  unfold ToInt32. pose proof (Z.mod_pos_bound (z + 2 ^ 31) (2 ^ 32)). lia.
Qed.

Lemma ToInt32_add_multiple z k : ToInt32 (z + k * 2 ^ 32) = ToInt32 z.
Proof.
  unfold ToInt32. f_equal.
  replace (z + k * 2 ^ 32 + 2 ^ 31) with (z + 2 ^ 31 + k * 2 ^ 32) by lia.
  apply Z.mod_add. lia.
Qed.

Lemma ToInt32_multiple z : exists k, ToInt32 z = z + k * 2 ^ 32.
Proof.
  exists (- ((z + 2 ^ 31) / 2 ^ 32)). unfold ToInt32.
  pose proof (Z.div_mod (z + 2 ^ 31) (2 ^ 32)). lia.
Qed.

Lemma ToInt32_small z : - 2 ^ 31 <= z < 2 ^ 31 -> ToInt32 z = z.
Proof. intros H. unfold ToInt32. rewrite Z.mod_small; lia. Qed.

Lemma ToInt32_idempotent z : ToInt32 (ToInt32 z) = ToInt32 z.
Proof. apply ToInt32_small, ToInt32_range. Qed.

(** The reducer of the source, [((acc << 5) - acc + c) | 0], is the step of
    the specification. *)
Lemma hash_step_wrap32 acc char c rest :
  char = c :: rest -> hash_step acc char = wrap32 (acc * 31 + Z.of_N c).
Proof.
  intros ->. unfold hash_step, charCodeAt, bor, shl. simpl nth_error. cbv iota.
  change (Z.land 5 31) with 5. change (ToInt32 0) with 0.
  rewrite Z.lor_0_r, ToInt32_idempotent, Z.shiftl_mul_pow2 by lia.
  destruct (ToInt32_multiple acc) as [k ->].
  destruct (ToInt32_multiple ((acc + k * 2 ^ 32) * 2 ^ 5)) as [j ->].
  change (wrap32 (acc * 31 + Z.of_N c)) with (ToInt32 (acc * 31 + Z.of_N c)).
  rewrite <- (ToInt32_add_multiple (acc * 31 + Z.of_N c) (32 * k + j)).
  f_equal. lia.
Qed.

(** The sum inside the reducer stays far below 2^53, so the double-precision
    arithmetic of the source is exact and the integers model it. *)
Lemma hash_step_exact acc c :
  - 2 ^ 31 <= acc < 2 ^ 31 -> (c < 65536)%N ->
  - 2 ^ 53 < shl acc 5 - acc + Z.of_N c < 2 ^ 53.
Proof.
  intros Hacc Hc. unfold shl.
  pose proof (ToInt32_range (Z.shiftl (ToInt32 acc) (Z.land 5 31))). lia.
Qed.

(** Every element of [Array.from(s)] has a first code unit. *)
Lemma Array_from_nonempty (s : jsstring) :
  Forall (fun char => exists c rest, char = c :: rest) (Array_from s).
Proof.
  remember (length s) as n eqn:Hn. revert s Hn.
  induction n as [n IH] using lt_wf_ind. intros s ->.
  destruct s as [|h [|l t']]; simpl.
  - constructor.
  - repeat constructor. eauto.
  - destruct (isHighSurrogate h && isLowSurrogate l).
    + constructor; [eauto|]. apply (IH (length t') ltac:(simpl; lia) t' eq_refl).
    + constructor; [eauto|].
      apply (IH (length (l :: t')) ltac:(simpl; lia) (l :: t') eq_refl).
Qed.

Lemma fold_hash_step (chars : list jsstring) :
  Forall (fun char => exists c rest, char = c :: rest) chars ->
  forall acc,
    fold_left hash_step chars acc
    = fold_left (fun hash charCode => wrap32 (hash * 31 + charCode))
                (map (fun char => Z.of_N (hd 0%N char)) chars) acc.
Proof.
  induction 1 as [|char chars (c & rest & Hc) _ IH]; intros acc; simpl; [done|].
  rewrite (hash_step_wrap32 acc char c rest Hc). subst char. apply IH.
Qed.

Lemma hash_spec_hash (tokenId : jsstring) : hash tokenId = spec_hash (charCodes tokenId).
Proof. apply fold_hash_step, Array_from_nonempty. Qed.

Lemma fold_hash_step_range (chars : list jsstring) :
  Forall (fun char => exists c rest, char = c :: rest) chars ->
  forall acc, - 2 ^ 31 <= acc < 2 ^ 31 ->
    - 2 ^ 31 <= fold_left hash_step chars acc < 2 ^ 31.
Proof.
  induction 1 as [|char chars (c & rest & Hc) _ IH]; intros acc Hacc; simpl; [done|].
  apply IH. rewrite (hash_step_wrap32 acc char c rest Hc). apply ToInt32_range.
Qed.

Lemma hash_range (tokenId : jsstring) : - 2 ^ 31 <= hash tokenId < 2 ^ 31.
Proof. apply fold_hash_step_range; [apply Array_from_nonempty|lia]. Qed.

(** Appending in a loop is concatenation. *)
Lemma fold_left_append {A} (f : A -> jsstring) (l : list A) (acc : jsstring) :
  fold_left (fun patterns i => patterns ++ f i) l acc = acc ++ concat (map f l).
Proof.
  revert acc. induction l as [|x l IH]; intros acc; simpl.
  - by rewrite app_nil_r.
  - by rewrite IH, app_assoc.
Qed.

(** [trimStart] stops inside a prefix that has a character other than
    white space. *)
Lemma trimStart_app (p rest : jsstring) :
  trimStart p <> [] -> trimStart (p ++ rest) = trimStart p ++ rest.
Proof.
  induction p as [|a p IH]; simpl; [done|].
  destruct (isWhiteSpace a); [apply IH|done].
Qed.

(** [trim] touches the two ends only. *)
Lemma trim_ends (p middle q : jsstring) :
  trimStart p <> [] ->
  trimStart (rev q) <> [] ->
  trim (p ++ middle ++ q) = trimStart p ++ middle ++ rev (trimStart (rev q)).
Proof.
  intros Hp Hq. unfold trim.
  rewrite (trimStart_app p _ Hp).
  rewrite !rev_app_distr, <- !app_assoc.
  rewrite (trimStart_app (rev q) _ Hq).
  rewrite !rev_app_distr, !rev_involutive, <- !app_assoc. reflexivity.
Qed.

(** [trim] of a template of nine pieces whose first and last have a
    character other than white space. *)
Lemma trim_pieces (p a b c d e f g q : jsstring) :
  trimStart p <> [] ->
  trimStart (rev q) <> [] ->
  trim (p ++ a ++ b ++ c ++ d ++ e ++ f ++ g ++ q)
  = trimStart p ++ a ++ b ++ c ++ d ++ e ++ f ++ g ++ rev (trimStart (rev q)).
Proof.
  intros Hp Hq.
  transitivity (trim (p ++ (a ++ b ++ c ++ d ++ e ++ f ++ g) ++ q)).
  { f_equal. by rewrite <- !app_assoc. }
  rewrite trim_ends by done. by rewrite <- !app_assoc.
Qed.

Lemma hue_mod (tokenId : jsstring) :
  remainder (Math_abs (hash tokenId)) 360 = Z.abs (hash tokenId) mod 360.
Proof. unfold remainder, Math_abs. apply Z.rem_mod_nonneg; lia. Qed.

Lemma numCircles_mod (tokenId : jsstring) :
  numCircles tokenId = 3 + Z.abs (hash tokenId) mod 5.
Proof.
  unfold numCircles, remainder, Math_abs. rewrite Z.rem_mod_nonneg; lia.
Qed.

Lemma generateColor_colour (tokenId : jsstring) :
  generateColor tokenId = colour (Z.abs (hash tokenId) mod 360).
Proof. unfold generateColor, colour. by rewrite hue_mod. Qed.

(** The loop of [generatePattern] appends the circles of the ring. *)
Lemma generatePattern_ring {F : Float64} (tokenId : jsstring) :
  generatePattern tokenId
  = concat (ring (3 + Z.abs (hash tokenId) mod 5) (50 + Z.rem (hash tokenId) 30)).
Proof.
  unfold generatePattern. rewrite fold_left_append, numCircles_mod. reflexivity.
Qed.

(** The served text is the picture for the hue, the number of circles and
    the radius the source computes from the hash. *)
Lemma svg_picture {F : Float64} (tokenId : jsstring) :
  svg tokenId
  = picture (Z.abs (hash tokenId) mod 360) (3 + Z.abs (hash tokenId) mod 5)
            (50 + Z.rem (hash tokenId) 30) tokenId.
Proof.
  unfold svg. rewrite trim_pieces by discriminate.
  rewrite generateColor_colour, generatePattern_ring. reflexivity.
Qed.

(** The truncating remainder has the sign of the hash. *)
Lemma rem_30_sign (h : Z) :
  (0 <= h -> Z.rem h 30 = h mod 30) /\
  (h < 0 -> Z.rem h 30 = - (Z.abs h mod 30)).
Proof.
  split; intros Hh.
  - apply Z.rem_mod_nonneg; lia.
  - rewrite Z.rem_mod by lia. rewrite Z.sgn_neg by lia. change (Z.abs 30) with 30. lia.
Qed.

(** Two pictures that differ in the radius only differ, when there is a
    circle to draw. *)
Lemma picture_radius {F : Float64} (hue n r r' : Z) (tokenId : jsstring) :
  0 < n ->
  picture hue n r tokenId = picture hue n r' tokenId ->
  exists rest rest', Number_toString r ++ rest = Number_toString r' ++ rest'.
Proof.
  intros Hn Heq. unfold picture in Heq.
  do 5 apply app_inv_head in Heq.
  unfold ring, seqZ in Heq.
  destruct (Z.to_nat n) as [|k] eqn:Hk; [lia|].
  change (seq 0 (S k)) with (0%nat :: seq 1 k) in Heq.
  rewrite fmap_cons, !map_cons, !concat_cons in Heq.
  unfold circle_element in Heq. rewrite <- !app_assoc in Heq.
  do 5 apply app_inv_head in Heq. eauto.
Qed.

(** C5, as stated, fails for a token id whose hash is negative: for the token
    id 1700000 the hash is -2136549942 and the circles have the radius
    50 + (-12) = 38, where 50 + (hash mod 30) is 68; the served picture is
    the one with radius 38, not the one with radius 68. *)
Lemma radius_of_negative_hash_counterexample :
  hash wrapped_id = -2136549942 /\
  radius wrapped_id = 38 /\
  50 + hash wrapped_id mod 30 = 68 /\
  radius wrapped_id <> 50 + hash wrapped_id mod 30 /\
  forall F : Float64,
    body (GET wrapped_id) = picture 342 5 38 wrapped_id /\
    body (GET wrapped_id)
    <> picture (Z.abs (hash wrapped_id) mod 360) (3 + Z.abs (hash wrapped_id) mod 5)
               (50 + hash wrapped_id mod 30) wrapped_id.
Proof.
  split_and!; [reflexivity|reflexivity|reflexivity|vm_compute; discriminate|].
  intros F. unfold GET. cbn [body]. rewrite svg_picture.
  change (hash wrapped_id) with (-2136549942).
  change (Z.abs (-2136549942) mod 360) with 342.
  change (3 + Z.abs (-2136549942) mod 5) with 5.
  change (50 + Z.rem (-2136549942) 30) with 38.
  change (50 + -2136549942 mod 30) with 68.
  split; [reflexivity|].
  intros Heq. apply picture_radius in Heq as (rest & rest' & Heq); [|lia].
  vm_compute in Heq. discriminate Heq.
Qed.

(** C5, amended. The image synthesizer computes what the specification
    says, with the truncating remainder in the radius: the hash is the fold
    of [hash = (hash * 31 + charCode)] with signed 32-bit wrap-around over
    the character codes; the hue is [abs(hash) mod 360]; there are
    [3 + (abs(hash) mod 5)] circles, between 3 and 7, of radius
    [50 + (hash rem 30)], where the remainder has the sign of the hash: the
    radius is [50 + (hash mod 30)] for a hash that is not negative and
    [50 - (abs(hash) mod 30)] for a negative one, between 21 and 79. The
    response is the picture for these three numbers and the token id:
    status 200, the two headers, and as body the svg document whose
    gradient has the colour [hsl(hue, 70%, 60%)], whose pattern is the ring
    of that many circles of that radius, and whose label is the token id. It
    is a function of the token id alone. *)
Theorem image_synthesizer_as_specified {F : Float64} (tokenId : jsstring) :
  let h := spec_hash (charCodes tokenId) in
  let hue := Z.abs h mod 360 in
  let n := 3 + Z.abs h mod 5 in
  let r := 50 + Z.rem h 30 in
  hash tokenId = h /\ - 2 ^ 31 <= h < 2 ^ 31 /\
  0 <= hue < 360 /\ 3 <= n <= 7 /\ 21 <= r <= 79 /\
  (0 <= h -> r = 50 + h mod 30) /\
  (h < 0 -> r = 50 - Z.abs h mod 30) /\
  generateColor tokenId = colour hue /\
  numCircles tokenId = n /\
  radius tokenId = r /\
  generatePattern tokenId = concat (ring n r) /\
  length (ring n r) = Z.to_nat n /\
  (forall circle, In circle (ring n r) ->
     exists x y, circle = circle_element x y r) /\
  GET tokenId
  = mkResponse 200
      [(lit "Content-Type", lit "image/svg+xml");
       (lit "Cache-Control", lit "public, max-age=31536000, immutable")]
      (picture hue n r tokenId).
Proof.
  cbv zeta. rewrite <- hash_spec_hash.
  pose proof (hash_range tokenId) as Hr.
  pose proof (rem_30_sign (hash tokenId)) as [Hpos Hneg].
  pose proof (Z.mod_pos_bound (Z.abs (hash tokenId)) 360 ltac:(lia)) as Hhue.
  pose proof (Z.mod_pos_bound (Z.abs (hash tokenId)) 5 ltac:(lia)) as Hfive.
  pose proof (Z.mod_pos_bound (hash tokenId) 30 ltac:(lia)) as Hthirty.
  pose proof (Z.mod_pos_bound (Z.abs (hash tokenId)) 30 ltac:(lia)) as Hthirty'.
  assert (21 <= 50 + Z.rem (hash tokenId) 30 <= 79) as Hradius.
  { destruct (Z.le_gt_cases 0 (hash tokenId)) as [H|H].
    - rewrite (Hpos H). lia.
    - rewrite (Hneg ltac:(lia)). lia. }
  split_and!; [reflexivity|lia|lia|lia|lia|lia|lia|lia|lia|..].
  - intros H. by rewrite (Hpos H).
  - intros H. rewrite (Hneg H). lia.
  - apply generateColor_colour.
  - apply numCircles_mod.
  - reflexivity.
  - apply generatePattern_ring.
  - unfold ring. by rewrite length_map, length_seqZ.
  - intros circle Hin. unfold ring in Hin. apply in_map_iff in Hin as (i & <- & _). eauto.
  - unfold GET. by rewrite svg_picture.
Qed.

(** The hash of "42" is 52 * 31 + 50. *)
Example hash_42 :
  hash (lit "42") = 1662 /\ generateColor (lit "42") = lit "hsl(222, 70%, 60%)" /\
  numCircles (lit "42") = 5 /\ radius (lit "42") = 62.
Proof. split_and!; reflexivity. Qed.

(** A hash that wrapped around to a negative number: the radius is below
    the base radius 50. *)
Example hash_negative :
  hash (lit "99999999999") = -613736295 /\ radius (lit "99999999999") = 35 /\
  numCircles (lit "99999999999") = 3.
Proof. split_and!; reflexivity. Qed.

End Synthesizer.

(** * Properties of the metadata resolver and of the endpoints' headers *)

Module Resolver.
Import JS Constants Firebase MetadataRoute ResolverSpec.

Lemma truthy_nonempty (s : jsstring) : truthy s = true <-> s <> [].
Proof. destruct s; simpl; split; congruence. Qed.

Lemma truthy_opt_missing (param : option jsstring) :
  truthy_opt param = false <-> missing param.
Proof.
  unfold missing. destruct param as [[|c s]|]; simpl; split;
    first [tauto | congruence | intros [H|H]; congruence].
Qed.

Lemma truthy_app_literal (a b c : jsstring) : b <> [] -> truthy (a ++ b ++ c) = true.
Proof. intros Hb. apply truthy_nonempty. destruct a, b; simpl; congruence. Qed.

Lemma or_else_truthy (a : option jsstring) (b : jsstring) :
  truthy b = true -> truthy (or_else a b) = true.
Proof.
  intros Hb. unfold or_else. destruct a as [s|]; [|done].
  destruct (truthy s) eqn:Hs; done.
Qed.

(** The lookup relation describes what both [findUploadedImage] compute. *)
Lemma findUploadedImage_lookup {U : Unicode} store address :
  lookup store address (MetadataRoute.findUploadedImage store address) /\
  MetadataQueryRoute.findUploadedImage store address
  = MetadataRoute.findUploadedImage store address.
Proof.
  unfold MetadataRoute.findUploadedImage, MetadataQueryRoute.findUploadedImage.
  destruct (getStorage store) as [u|m] eqn:Hs; [|split; [by eapply storage_unavailable|done]].
  destruct (listAll store _) as [items|m] eqn:Hl; [|split; [by eapply listing_failed|done]].
  destruct (find _ items) as [item|] eqn:Hf; [|split; [by eapply no_collection_asset|done]].
  destruct (getDownloadURL store item) as [url|m] eqn:Hu.
  - split; [by eapply asset_resolved|done].
  - split; [by eapply url_unavailable|done].
Qed.

(** The lookup has one outcome only. *)
Lemma lookup_functional {U : Unicode} store address o :
  lookup store address o -> o = MetadataRoute.findUploadedImage store address.
Proof.
  unfold MetadataRoute.findUploadedImage.
  destruct 1 as [m Hs|m Hl|items Hl Hf|items item m Hl Hf Hu|u items item url Hs Hl Hf Hu].
  - by rewrite Hs.
  - rewrite Hl. by destruct (getStorage store).
  - rewrite Hl, Hf. by destruct (getStorage store).
  - rewrite Hl, Hf, Hu. by destruct (getStorage store).
  - by rewrite Hs, Hl, Hf, Hu.
Qed.

(** The document of either handler passes the validation, whatever the
    lookup gave and whatever the token id. *)
Lemma build_metadata_valid env now (uploadedImage : option jsstring) (tokenId : jsstring) :
  validateMetadata (MetadataRoute.build_metadata env now uploadedImage tokenId) = true /\
  validateMetadata (MetadataQueryRoute.build_metadata env now uploadedImage tokenId) = true.
Proof.
  unfold validateMetadata, MetadataRoute.build_metadata,
    MetadataQueryRoute.build_metadata, Array_isArray.
  cbn [name description image external_url attributes forallb trait_type value typeof].
  assert (forall base, truthy (or_else uploadedImage (base ++ lit "/api/image/" ++ tokenId))
                       = true) as Himage
    by (intros base; apply or_else_truthy, truthy_app_literal; discriminate).
  assert (forall base, truthy (base ++ lit "/nft/" ++ tokenId) = true) as Hurl
    by (intros base; apply truthy_app_literal; discriminate).
  rewrite !Himage, !Hurl. split; reflexivity.
Qed.

(** What the two handlers answer once both parameters are there. *)
Lemma GET_document {U : Unicode} store env now request address tokenId :
  searchParams_get (searchParams request) (lit "contract") = Some address ->
  address <> [] ->
  MetadataRoute.GET store env now request tokenId
  = mkResponse 200
      [(lit "Content-Type", lit "application/json");
       (lit "Cache-Control", lit "no-cache, no-store, must-revalidate")]
      (Document (MetadataRoute.build_metadata env now
                   (MetadataRoute.findUploadedImage store address) tokenId)) /\
  (searchParams_get (searchParams request) (lit "tokenId") = Some tokenId ->
   tokenId <> [] ->
   MetadataQueryRoute.GET store env now request
   = mkResponse 200
       [(lit "Content-Type", lit "application/json");
        (lit "Cache-Control", lit "no-cache, no-store, must-revalidate")]
       (Document (MetadataQueryRoute.build_metadata env now
                    (MetadataRoute.findUploadedImage store address) tokenId))).
Proof.
  intros Hc Ha. apply truthy_nonempty in Ha. split.
  - unfold MetadataRoute.GET. rewrite Hc, Ha.
    by rewrite (proj1 (build_metadata_valid _ _ _ _)).
  - intros Ht Hn. apply truthy_nonempty in Hn.
    unfold MetadataQueryRoute.GET. rewrite Hc, Ht. simpl. rewrite Ha, Hn. simpl.
    by rewrite (proj2 (findUploadedImage_lookup store address)).
Qed.

Lemma image_type_build_metadata env now (uploadedImage : option jsstring) tokenId :
  image_type (MetadataRoute.build_metadata env now uploadedImage tokenId)
  = Some (VString (if truthy_opt uploadedImage then lit "Uploaded" else lit "Generated")) /\
  image_type (MetadataQueryRoute.build_metadata env now uploadedImage tokenId)
  = Some (VString (if truthy_opt uploadedImage then lit "Uploaded" else lit "Generated")).
Proof. split; reflexivity. Qed.

(** C6. A metadata request with a contract address (and a token id): when
    the store holds no uploaded collection asset for the address, or a call
    into the store fails, the document's image is the generated-image
    endpoint URL for the token id and its Image Type is "Generated"; when an
    uploaded asset resolves to a (non-empty) URL, the image is that URL
    and the Image Type is "Uploaded". The lookup always has an outcome and
    the response is successful in every case. *)
Theorem metadata_image_fallback {U : Unicode} store env now request address segment :
  searchParams_get (searchParams request) (lit "contract") = Some address ->
  address <> [] ->
  let by_path := MetadataRoute.GET store env now request segment in
  let by_query := MetadataQueryRoute.GET store env now request in
  (exists outcome, lookup store address outcome) /\
  status by_path = 200 /\
  (lookup store address None ->
   serves by_path (API_URL env ++ lit "/api/image/" ++ segment) "Generated") /\
  (forall url, lookup store address (Some url) -> url <> [] ->
   serves by_path url "Uploaded") /\
  (forall tokenId,
     searchParams_get (searchParams request) (lit "tokenId") = Some tokenId ->
     tokenId <> [] ->
     status by_query = 200 /\
     (lookup store address None ->
      serves by_query (MetadataQueryRoute.apiUrl env ++ lit "/api/image/" ++ tokenId)
             "Generated") /\
     (forall url, lookup store address (Some url) -> url <> [] ->
      serves by_query url "Uploaded")).
Proof.
  intros Hc Ha. cbv zeta.
  destruct (GET_document store env now request address segment Hc Ha) as [Hpath Hquery].
  split_and!.
  - eexists. apply findUploadedImage_lookup.
  - by rewrite Hpath.
  - intros Hl. apply lookup_functional in Hl. rewrite Hpath, <- Hl.
    split; [done|]. eexists. split_and!; reflexivity.
  - intros url Hl Hurl. apply lookup_functional in Hl. rewrite Hpath, <- Hl.
    split; [done|]. eexists. split; [reflexivity|].
    destruct url; [done|]. split; reflexivity.
  - intros tokenId Ht Hn.
    destruct (GET_document store env now request address tokenId Hc Ha) as [_ Hq].
    specialize (Hq Ht Hn). split_and!.
    + by rewrite Hq.
    + intros Hl. apply lookup_functional in Hl. rewrite Hq, <- Hl.
      split; [done|]. eexists. split_and!; reflexivity.
    + intros url Hl Hurl. apply lookup_functional in Hl. rewrite Hq, <- Hl.
      split; [done|]. eexists. split; [reflexivity|].
      destruct url; [done|]. split; reflexivity.
Qed.

(** The sample request is answered with the uploaded image of its collection. *)
Lemma metadata_image_fallback_witness :
  serves (MetadataRoute.GET (U := asciiLower) sample_store sample_env 1700000000000
            sample_request (lit "7"))
         (lit "https://storage.example/collections/0xabc/collection-cat.png") "Uploaded".
Proof.
  destruct (metadata_image_fallback (U := asciiLower) sample_store sample_env
              1700000000000 sample_request (lit "0xABC") (lit "7") eq_refl
              ltac:(discriminate)) as (_ & _ & _ & Huploaded & _).
  apply Huploaded; [|discriminate].
  eapply (asset_resolved (U := asciiLower) sample_store (lit "0xABC") tt [sample_item]
            sample_item); reflexivity.
Defined.

(** A parameter is either missing or has a non-empty value. *)
Lemma missing_or_present (param : option jsstring) :
  missing param \/ exists v, param = Some v /\ v <> [].
Proof.
  unfold missing. destruct param as [[|c v]|]; [by left; right| |by left; left].
  right. eexists. split; [reflexivity|discriminate].
Qed.

Lemma present_not_missing (param : option jsstring) v :
  param = Some v -> v <> [] -> ~ missing param.
Proof. intros -> Hv [H|H]; congruence. Qed.

Lemma GET_missing_contract {U : Unicode} store env now request segment :
  missing (searchParams_get (searchParams request) (lit "contract")) ->
  MetadataRoute.GET store env now request segment
  = mkResponse 400 [] (Error (lit "Contract address is required")) /\
  MetadataQueryRoute.GET store env now request
  = mkResponse 400 [] (Error (lit "Contract address is required")).
Proof.
  unfold MetadataRoute.GET, MetadataQueryRoute.GET. intros [-> | ->]; by split.
Qed.

Lemma GET_missing_tokenId {U : Unicode} store env now request :
  ~ missing (searchParams_get (searchParams request) (lit "contract")) ->
  missing (searchParams_get (searchParams request) (lit "tokenId")) ->
  MetadataQueryRoute.GET store env now request
  = mkResponse 400 [] (Error (lit "Token ID is required")).
Proof.
  intros Hc Ht. unfold MetadataQueryRoute.GET.
  apply truthy_opt_missing in Ht. rewrite Ht.
  destruct (truthy_opt (searchParams_get (searchParams request) (lit "contract"))) eqn:Hp;
    [done|].
  by apply truthy_opt_missing in Hp.
Qed.

(** C7. The query-string handler answers 400 exactly when the contract
    address or the token id is missing, and then with the error naming the
    missing parameter. The path handler takes the token id from the route
    segment, which is always there, and answers 400 exactly when the
    contract address is missing. *)
Theorem missing_parameter_is_400 {U : Unicode} store env now request segment :
  let contract := searchParams_get (searchParams request) (lit "contract") in
  let tokenId := searchParams_get (searchParams request) (lit "tokenId") in
  let by_query := MetadataQueryRoute.GET store env now request in
  let by_path := MetadataRoute.GET store env now request segment in
  (missing contract ->
   by_query = mkResponse 400 [] (Error (lit "Contract address is required"))) /\
  (~ missing contract -> missing tokenId ->
   by_query = mkResponse 400 [] (Error (lit "Token ID is required"))) /\
  (status by_query = 400 <-> missing contract \/ missing tokenId) /\
  (missing contract ->
   by_path = mkResponse 400 [] (Error (lit "Contract address is required"))) /\
  (status by_path = 400 <-> missing contract).
Proof.
  cbv zeta. split_and!.
  - intros Hc. apply (GET_missing_contract store env now request segment Hc).
  - apply GET_missing_tokenId.
  - destruct (missing_or_present (searchParams_get (searchParams request) (lit "contract")))
      as [Hc|(address & Hc & Ha)].
    { rewrite (proj2 (GET_missing_contract store env now request segment Hc)). tauto. }
    destruct (missing_or_present (searchParams_get (searchParams request) (lit "tokenId")))
      as [Ht|(tokenId & Ht & Hn)].
    { rewrite (GET_missing_tokenId store env now request); [tauto| |done].
      by eapply present_not_missing. }
    destruct (GET_document store env now request address tokenId Hc Ha) as [_ Hq].
    rewrite (Hq Ht Hn). simpl. split; [done|].
    intros [H|H]; exfalso; revert H; by eapply present_not_missing.
  - intros Hc. apply (GET_missing_contract store env now request segment Hc).
  - destruct (missing_or_present (searchParams_get (searchParams request) (lit "contract")))
      as [Hc|(address & Hc & Ha)].
    { rewrite (proj1 (GET_missing_contract store env now request segment Hc)). tauto. }
    destruct (GET_document store env now request address segment Hc Ha) as [-> _].
    simpl. split; [done|]. intros H. exfalso. revert H. by eapply present_not_missing.
Qed.

Example empty_contract_is_missing :
  MetadataQueryRoute.GET (U := asciiLower) sample_store sample_env 0
    {| searchParams := [(lit "contract", []); (lit "tokenId", lit "7")] |}
  = mkResponse 400 [] (Error (lit "Contract address is required")).
Proof. reflexivity. Qed.

(** C9. The document the resolver builds passes [validateMetadata] for
    every token id and every outcome of the lookup, so the handler never
    takes the branch that answers 500: it answers 400 for a missing contract
    address and otherwise 200 with a valid document. *)
Theorem constructed_metadata_is_valid {U : Unicode} store env now request segment
    (uploadedImage : option jsstring) (tokenId : jsstring) :
  let response := MetadataRoute.GET store env now request segment in
  validateMetadata (MetadataRoute.build_metadata env now uploadedImage tokenId) = true /\
  status response <> 500 /\
  (response = mkResponse 400 [] (Error (lit "Contract address is required")) \/
   exists metadata,
     body response = Document metadata /\ status response = 200 /\
     validateMetadata metadata = true).
Proof.
  cbv zeta. split; [apply build_metadata_valid|].
  destruct (missing_or_present (searchParams_get (searchParams request) (lit "contract")))
    as [Hc|(address & Hc & Ha)].
  - rewrite (proj1 (GET_missing_contract store env now request segment Hc)).
    split; [done|by left].
  - destruct (GET_document store env now request address segment Hc Ha) as [-> _].
    split; [done|]. right. eexists. split_and!; [reflexivity..|].
    apply build_metadata_valid.
Qed.

(** Either handler answers 400, or with the headers of the document. *)
Lemma GET_cases {U : Unicode} store env now request segment :
  (status (MetadataRoute.GET store env now request segment) = 400 \/
   headers (MetadataRoute.GET store env now request segment)
   = [(lit "Content-Type", lit "application/json");
      (lit "Cache-Control", lit "no-cache, no-store, must-revalidate")]) /\
  (status (MetadataQueryRoute.GET store env now request) = 400 \/
   headers (MetadataQueryRoute.GET store env now request)
   = [(lit "Content-Type", lit "application/json");
      (lit "Cache-Control", lit "no-cache, no-store, must-revalidate")]).
Proof.
  destruct (missing_or_present (searchParams_get (searchParams request) (lit "contract")))
    as [Hc|(address & Hc & Ha)].
  { destruct (GET_missing_contract store env now request segment Hc) as [-> ->].
    split; by left. }
  destruct (GET_document store env now request address segment Hc Ha) as [-> _].
  split; [by right|].
  destruct (missing_or_present (searchParams_get (searchParams request) (lit "tokenId")))
    as [Ht|(tokenId & Ht & Hn)].
  { rewrite (GET_missing_tokenId store env now request); [by left| |done].
    by eapply present_not_missing. }
  destruct (GET_document store env now request address tokenId Hc Ha) as [_ Hq].
  rewrite (Hq Ht Hn). by right.
Qed.

(** C8. A successful metadata response, of either handler, carries the
    cache directive no-store; the image response is successful, of type
    image/svg+xml, and carries a one-year, immutable cache directive. *)
Theorem cache_directives {U : Unicode} {F : Float64} store env now request segment tokenId :
  let by_path := MetadataRoute.GET store env now request segment in
  let by_query := MetadataQueryRoute.GET store env now request in
  let picture := ImageRoute.GET tokenId in
  (status by_path = 200 ->
   header_get (headers by_path) (lit "Cache-Control")
   = Some (lit "no-cache, no-store, must-revalidate")) /\
  (status by_query = 200 ->
   header_get (headers by_query) (lit "Cache-Control")
   = Some (lit "no-cache, no-store, must-revalidate")) /\
  In (lit "no-store") (directives (lit "no-cache, no-store, must-revalidate")) /\
  status picture = 200 /\
  header_get (headers picture) (lit "Content-Type") = Some (lit "image/svg+xml") /\
  header_get (headers picture) (lit "Cache-Control")
  = Some (lit "public, max-age=31536000, immutable") /\
  In (lit "immutable") (directives (lit "public, max-age=31536000, immutable")) /\
  In (lit "max-age=31536000") (directives (lit "public, max-age=31536000, immutable")).
Proof.
  cbv zeta.
  destruct (GET_cases store env now request segment) as [Hpath Hquery].
  split_and!.
  - intros Hok. destruct Hpath as [H | ->]; [congruence|reflexivity].
  - intros Hok. destruct Hquery as [H | ->]; [congruence|reflexivity].
  - simpl. tauto.
  - reflexivity.
  - reflexivity.
  - reflexivity.
  - simpl. tauto.
  - simpl. tauto.
Qed.

End Resolver.

(** * Properties of the upload endpoint *)

Module Upload.
Import JS Firebase UploadRoute UploadSpec.

Lemma allowed_spec (c : N) :
  allowed c = true <->
  (97 <= c <= 122 \/ 65 <= c <= 90 \/ 48 <= c <= 57 \/ c = 46 \/ c = 45)%N.
Proof.
  unfold allowed.
  rewrite !orb_true_iff, !andb_true_iff, !N.leb_le, !N.eqb_eq. tauto.
Qed.

Lemma sanitize_allowed (name : jsstring) :
  Forall (fun c => allowed c = true) (sanitize name).
Proof.
  unfold sanitize. apply Forall_forall. intros c Hc.
  apply list_elem_of_filter in Hc. tauto.
Qed.

Lemma sanitize_no_slash (name : jsstring) : ~ In slash (sanitize name).
Proof.
  intros Hin. pose proof (sanitize_allowed name) as Hall.
  rewrite Forall_forall in Hall. apply list_elem_of_In, Hall in Hin. discriminate.
Qed.

Lemma filename_no_slash (f : File) : ~ In slash (filename_of f).
Proof.
  unfold filename_of. rewrite in_app_iff. intros [Hin|Hin].
  - simpl in Hin. unfold slash in Hin. intuition discriminate.
  - by apply sanitize_no_slash in Hin.
Qed.

(** What a successful upload did. *)
Lemma POST_success {U : Unicode} store now formData :
  status (fst (POST store now formData)) = 200 ->
  exists f address,
    file formData = Some f /\ contractAddress formData = Some address /\
    address <> [] /\ startsWith (type f) (lit "image/") = true /\
    map storagePath (snd (POST store now formData)) = [storagePath_of f address].
Proof.
  unfold POST, failed.
  destruct (file formData) as [f|]; [|discriminate].
  destruct (contractAddress formData) as [[|c address]|]; simpl; [discriminate| |discriminate].
  destruct (startsWith (type f) (lit "image/")) eqn:Himage; simpl; [|discriminate].
  destruct (getStorage store); [|discriminate].
  destruct (uploadBytes store _ _ _) as [uploaded|]; [|discriminate].
  destruct (getDownloadURL store uploaded); [|discriminate].
  intros _. exists f, (c :: address). simpl. by split_and!.
Qed.

(** C10. A successful upload wrote one object, at the path
    [collections/<lower-cased contractAddress>/collection-<sanitized name>]:
    the sanitized name keeps, in order, the characters of the client's file
    name that are in [a-zA-Z0-9.-] and no other; the last segment contains
    no path separator and is neither "." nor "..", so the file name adds no
    segment and does not leave the directory of the contract address. *)
Theorem upload_path_confined {U : Unicode} store now formData :
  status (fst (POST store now formData)) = 200 ->
  exists f address,
    file formData = Some f /\ contractAddress formData = Some address /\
    map storagePath (snd (POST store now formData))
    = [lit "collections/" ++ toLowerCase address ++ lit "/collection-" ++ sanitize (name f)] /\
    Forall (fun c => (97 <= c <= 122 \/ 65 <= c <= 90 \/ 48 <= c <= 57 \/ c = 46 \/ c = 45)%N)
           (sanitize (name f)) /\
    sublist (sanitize (name f)) (name f) /\
    (forall c, In c (name f) -> allowed c = true -> In c (sanitize (name f))) /\
    ~ In slash (lit "collection-" ++ sanitize (name f)) /\
    lit "collection-" ++ sanitize (name f) <> lit "." /\
    lit "collection-" ++ sanitize (name f) <> lit "..".
Proof.
  intros Hok.
  destruct (POST_success store now formData Hok) as (f & address & Hf & Ha & _ & _ & Hw).
  exists f, address. split_and!.
  - exact Hf.
  - exact Ha.
  - rewrite Hw. reflexivity.
  - eapply Forall_impl; [apply sanitize_allowed|]. intros c. apply allowed_spec.
  - apply sublist_filter.
  - intros c Hin Hc. rewrite <- list_elem_of_In in Hin |- *.
    by apply list_elem_of_filter.
  - apply (filename_no_slash f).
  - discriminate.
  - discriminate.
Qed.

Lemma upload_path_confined_witness :
  map storagePath
      (snd (POST (U := ResolverSpec.asciiLower) ResolverSpec.sample_store 1700000000000
                 sample_upload))
  = [lit "collections/0xabc/collection-....evilcat.png"].
Proof.
  destruct (upload_path_confined (U := ResolverSpec.asciiLower) ResolverSpec.sample_store
              1700000000000 sample_upload eq_refl)
    as (f & address & Hf & Ha & Hpath & _).
  injection Hf as <-. injection Ha as <-. exact Hpath.
Defined.

End Upload.

(** * Further properties of the contract *)

Module Lifecycle.
Import SimpleNFT RegistrySpec LifecycleSpec ContractTests.

(** What one call leaves alone, by its caller. *)
Lemma stranger_after s c :
  sender_of c <> owner s ->
  _baseTokenURI (after s c) = _baseTokenURI s /\
  _metadataFrozen (after s c) = _metadataFrozen s /\
  owner (after s c) = owner s.
Proof.
  intros Hs.
  destruct (Registry.after_cases s c) as [->|[H|[H|[H|H]]]]; [done|..].
  - destruct H as (sender & accepted & s' & events & -> & Hm & ->).
    destruct (Registry.mint_success _ _ _ _ _ _ Hm) as (_ & _ & _ & _ & Hb & Hz & Ho).
    done.
  - destruct H as (sender & baseURI & s' & events & -> & Hm & ->).
    exfalso. revert Hm. unfold setBaseURI, onlyOwner. simpl in Hs. by case_decide.
  - destruct H as (sender & s' & events & -> & Hm & ->).
    exfalso. revert Hm. unfold freezeMetadata, onlyOwner. simpl in Hs. by case_decide.
  - destruct H as (sender & from & to & tokenId & s' & events & -> & Hm & ->).
    destruct (Registry.transferFrom_success _ _ _ _ _ _ _ _ Hm) as (_ & _ & _ & Hb & Hz & Ho).
    done.
Qed.

(** X1. Only the owner administers the metadata: over any sequence of
    calls none of which is sent by the collection's owner, the base URI, the
    frozen flag and the owner stay as they were, and afterwards [setBaseURI]
    and [freezeMetadata] by any such caller still revert with
    OwnableUnauthorizedAccount carrying the caller. *)
Theorem strangers_cannot_administer s (calls : list Call) :
  Forall (fun c => sender_of c <> owner s) calls ->
  _baseTokenURI (run s calls) = _baseTokenURI s /\
  _metadataFrozen (run s calls) = _metadataFrozen s /\
  owner (run s calls) = owner s /\
  forall sender baseURI, sender <> owner s ->
    setBaseURI (run s calls) sender baseURI = Revert (OwnableUnauthorizedAccount sender) /\
    freezeMetadata (run s calls) sender = Revert (OwnableUnauthorizedAccount sender).
Proof.
  revert s. induction calls as [|c calls IH]; intros s Hall.
  - simpl. split_and!; try done. intros sender baseURI Hs.
    unfold setBaseURI, freezeMetadata, onlyOwner. by case_decide.
  - apply Forall_cons in Hall as [Hc Hall]. simpl run.
    destruct (stranger_after s c Hc) as (Hb & Hf & Ho).
    rewrite <- Hb, <- Hf, <- Ho. apply IH.
    eapply Forall_impl; [exact Hall|]. intros c' Hc'. by rewrite Ho.
Qed.

Lemma strangers_cannot_administer_witness :
  let s := run (constructor "Test NFT" "TNFT" 1) sample_history in
  _baseTokenURI s = "" /\ _metadataFrozen s = false /\ owner s = 1%N /\
  forall sender baseURI, sender <> 1%N ->
    setBaseURI s sender baseURI = Revert (OwnableUnauthorizedAccount sender) /\
    freezeMetadata s sender = Revert (OwnableUnauthorizedAccount sender).
Proof.
  apply (strangers_cannot_administer (constructor "Test NFT" "TNFT" 1) sample_history).
  unfold sample_history. repeat (apply List.Forall_cons; [vm_compute; discriminate|]).
  apply List.Forall_nil.
Defined.

Lemma last_cons_default {A} (l : list A) : forall (x d d' : A),
  List.last (x :: l) d = List.last (x :: l) d'.
Proof. induction l as [|y l IH]; intros x d d'; [done|]. apply (IH y). Qed.

Lemma last_app_default {A} (l1 l2 : list A) (d : A) :
  List.last (l1 ++ l2) d = List.last l2 (List.last l1 d).
Proof.
  revert d. induction l1 as [|x l1 IH]; intros d; [done|].
  destruct l1 as [|y l1].
  - destruct l2 as [|z l2]; [done|]. apply (last_cons_default l2 z d x).
  - apply (IH d).
Qed.

Lemma accepted_uris_cons s c rest :
  accepted_uris s (c :: rest) = accepted_uris s [c] ++ accepted_uris (after s c) rest.
Proof.
  simpl. destruct c; try reflexivity.
  destruct (returning _ _); reflexivity.
Qed.

Lemma setBaseURI_sets s sender baseURI s' events u :
  setBaseURI s sender baseURI = Success (s', events, u) -> _baseTokenURI s' = baseURI.
Proof.
  unfold setBaseURI, onlyOwner. case_decide; [|done].
  destruct (_metadataFrozen s); [done|]. by intros [= <- _].
Qed.

Lemma accepted_uris_one s c :
  _baseTokenURI (after s c) = List.last (accepted_uris s [c]) (_baseTokenURI s).
Proof.
  destruct (Registry.after_cases s c) as [Hsame|[H|[H|[H|H]]]].
  - rewrite Hsame. unfold after in Hsame. simpl.
    destruct c; try done. simpl in *.
    destruct (setBaseURI s sender baseURI) as [[[s' events] []]|f] eqn:Hm; simpl in *;
      [|done].
    subst s'. by eapply setBaseURI_sets.
  - destruct H as (sender & accepted & s' & events & -> & Hm & ->).
    destruct (Registry.mint_success _ _ _ _ _ _ Hm) as (_ & _ & _ & _ & Hb & _). done.
  - destruct H as (sender & baseURI & s' & events & -> & Hm & ->).
    simpl. rewrite Hm. simpl. by eapply setBaseURI_sets.
  - destruct H as (sender & s' & events & -> & Hm & ->).
    destruct (Registry.freezeMetadata_success _ _ _ _ _ Hm) as (_ & _ & Hb & _). done.
  - destruct H as (sender & from & to & tokenId & s' & events & -> & Hm & ->).
    destruct (Registry.transferFrom_success _ _ _ _ _ _ _ _ Hm) as (_ & _ & _ & Hb & _).
    done.
Qed.

(** X2. The last accepted writer wins: after any sequence of calls the base
    URI is the argument of the last [setBaseURI] call that succeeded, and
    the one before the sequence when none did; no other call touches it. *)
Theorem base_uri_is_last_accepted (calls : list Call) : forall s,
  _baseTokenURI (run s calls) = List.last (accepted_uris s calls) (_baseTokenURI s).
Proof.
  induction calls as [|c calls IH]; intros s; [done|].
  rewrite accepted_uris_cons, last_app_default, <- accepted_uris_one.
  apply IH.
Qed.

(** X3. Minting is open to every caller and does what the tests check: on
    a collection reached by any calls, unless the counter is at its maximum,
    a mint whose receiver accepts succeeds for any sender; it returns the
    counter as the new id, which had no owner before; it emits
    Transfer(0, sender, id) and then MetadataUpdate(id); the sender owns the
    new token and has one token more; every other token and balance is as
    before; the total supply becomes the id; and the tests' helper reads the
    id back from the logs. *)
Theorem mint_effects name symbol initialOwner (calls : list Call) (sender : address) :
  let s := run (constructor name symbol initialOwner) calls in
  let id := _nextTokenId s in
  id <> MAX_UINT256 ->
  exists s',
    mint s sender true = Success (s', [Transfer 0 sender id; MetadataUpdate id], id) /\
    ownerOf s id = Revert (NotFound id) /\
    ownerOf s' id = Success sender /\
    (forall other, other <> id -> ownerOf s' other = ownerOf s other) /\
    balanceOf s' sender = (balanceOf s sender + 1)%N /\
    (forall account, account <> sender -> balanceOf s' account = balanceOf s account) /\
    totalSupply s' = Success id /\
    getTokenIdFromTx [Transfer 0 sender id; MetadataUpdate id] = Some id.
Proof.
  intros s id Hmax.
  destruct (Registry.wf_run calls _ (Registry.wf_constructor name symbol initialOwner))
    as [Hpos Hdom].
  fold s in Hpos, Hdom. fold id in Hpos.
  assert (_owners s !! id = None) as Hfree.
  { destruct (_owners s !! id) eqn:Ho; [|done].
    assert (is_Some (_owners s !! id)) as Hs by eauto. apply Hdom in Hs. lia. }
  unfold mint, _safeMint. fold id. case_decide; [done|]. simpl. rewrite Hfree.
  eexists. split; [reflexivity|].
  unfold ownerOf, balanceOf, totalSupply. simpl. rewrite Hfree.
  split_and!.
  - done.
  - by rewrite lookup_insert_eq.
  - intros other Hother. by rewrite lookup_insert_ne.
  - by rewrite lookup_insert_eq.
  - intros account Haccount. by rewrite lookup_insert_ne.
  - case_decide; [lia|]. f_equal. lia.
  - reflexivity.
Qed.

Lemma mint_effects_witness :
  let s := run (constructor "Test NFT" "TNFT" 1) sample_history in
  exists s',
    mint s 7 true = Success (s', [Transfer 0 7 3; MetadataUpdate 3], 3%N) /\
    ownerOf s 3 = Revert (NotFound 3) /\
    ownerOf s' 3 = Success 7%N /\
    (forall other, other <> 3%N -> ownerOf s' other = ownerOf s other) /\
    balanceOf s' 7 = (balanceOf s 7 + 1)%N /\
    (forall account, account <> 7%N -> balanceOf s' account = balanceOf s account) /\
    totalSupply s' = Success 3%N /\
    getTokenIdFromTx [Transfer 0 7 3; MetadataUpdate 3] = Some 3%N.
Proof.
  apply (mint_effects "Test NFT" "TNFT" 1 sample_history 7). vm_compute. discriminate.
Defined.

End Lifecycle.

(** * Properties of the generated collection symbol *)

Module Symbol.
Import JS JSText HomePage SymbolSpec.

Lemma slice_prefix (s : jsstring) : slice s 0 (Some 4) = take 4 s.
Proof.
  unfold slice. simpl.
  replace (Z.to_nat (Z.max (Z.min 4 (Z.of_nat (length s)) - Z.min 0 (Z.of_nat (length s))) 0))
    with (min 4 (length s)) by lia.
  replace (Z.to_nat (Z.min 0 (Z.of_nat (length s)))) with 0%nat by lia.
  rewrite drop_0. destruct (le_lt_dec 4 (length s)) as [Hlong|Hshort].
  - by rewrite Nat.min_l.
  - rewrite Nat.min_r by lia. rewrite !take_ge by lia. done.
Qed.

Lemma wordChar_ascii c : isWordChar c = true -> (c < 128)%N.
Proof.
  unfold isWordChar.
  rewrite !orb_true_iff, !andb_true_iff, !N.leb_le, !N.eqb_eq. lia.
Qed.

Lemma upper_wordChar c : isWordChar c = true -> isSymbolChar (upper c) = true.
Proof.
  unfold isWordChar, isSymbolChar, upper.
  destruct ((97 <=? c) && (c <=? 122))%N eqn:Hlow.
  - apply andb_true_iff in Hlow as [H1 H2]. apply N.leb_le in H1, H2.
    rewrite !orb_true_iff, !andb_true_iff, !N.leb_le, !N.eqb_eq. lia.
  - apply andb_false_iff in Hlow. rewrite !N.leb_gt in Hlow.
    rewrite !orb_true_iff, !andb_true_iff, !N.leb_le, !N.eqb_eq. lia.
Qed.

Lemma symbolChar_wordChar c : isSymbolChar c = true -> isWordChar c = true.
Proof.
  unfold isWordChar, isSymbolChar.
  rewrite !orb_true_iff, !andb_true_iff, !N.leb_le, !N.eqb_eq. lia.
Qed.

Lemma symbolChar_not_space c : isSymbolChar c = true -> isWhiteSpace c = false.
Proof.
  unfold isSymbolChar, isWhiteSpace.
  rewrite !orb_true_iff, !andb_true_iff, !N.leb_le, !N.eqb_eq. intros H.
  repeat (apply orb_false_iff; split); try apply andb_false_iff;
    rewrite ?N.leb_gt, ?N.eqb_neq; lia.
Qed.

Lemma upper_symbolChar c : isSymbolChar c = true -> upper c = c.
Proof.
  unfold isSymbolChar, upper.
  rewrite !orb_true_iff, !andb_true_iff, !N.leb_le, !N.eqb_eq. intros H.
  destruct ((97 <=? c) && (c <=? 122))%N eqn:Hlow; [|done].
  apply andb_true_iff in Hlow as [H1 H2]. apply N.leb_le in H1, H2. lia.
Qed.

(** Upper-casing a word gives symbol characters, and leaves a symbol as it is. *)
Lemma toUpperCase_word {UC : UpperCase} (w : jsstring) :
  Forall (fun c => isWordChar c = true) w ->
  toUpperCase w = map upper w /\
  Forall (fun c => isSymbolChar c = true) (toUpperCase w) /\
  length (toUpperCase w) = length w.
Proof.
  intros Hw.
  assert (toUpperCase w = map upper w) as ->.
  { apply toUpperCase_ascii. eapply Forall_impl; [exact Hw|]. apply wordChar_ascii. }
  split_and!; [done| |by rewrite length_map].
  apply Forall_fmap. eapply Forall_impl; [exact Hw|]. apply upper_wordChar.
Qed.

Lemma toUpperCase_symbol {UC : UpperCase} (w : jsstring) :
  Forall (fun c => isSymbolChar c = true) w -> toUpperCase w = w.
Proof.
  intros Hw.
  destruct (toUpperCase_word w) as [-> _].
  { eapply Forall_impl; [exact Hw|]. apply symbolChar_wordChar. }
  induction Hw as [|c w Hc _ IH]; [done|]. simpl. by rewrite upper_symbolChar, IH.
Qed.

(** The pieces of a split contain the characters that are not white space. *)
Lemma split_spaces_pieces (P : N -> Prop) (s : jsstring) : forall current in_space,
  Forall (fun c => isWhiteSpace c = false -> P c) s ->
  Forall P current ->
  Forall (Forall P) (split_spaces s current in_space).
Proof.
  induction s as [|c rest IH]; intros current in_space Hs Hcur; simpl.
  - by constructor.
  - apply Forall_cons in Hs as [Hc Hs].
    destruct (isWhiteSpace c) eqn:Hw.
    + destruct in_space; [by apply IH|]. constructor; [done|by apply IH].
    + apply IH; [done|]. apply Forall_app. split; [done|]. constructor; [by apply Hc|done].
Qed.

Lemma cleaned_words (name : jsstring) :
  Forall (Forall (fun c => isWordChar c = true)) (split_whitespace (cleaned name)).
Proof.
  apply split_spaces_pieces; [|done].
  apply Forall_forall. intros c Hc Hw.
  apply list_elem_of_filter in Hc as [Hc _].
  apply orb_true_iff in Hc as [Hc|Hc]; congruence.
Qed.

Lemma split_spaces_nonempty (s : jsstring) : forall current in_space,
  (1 <= length (split_spaces s current in_space))%nat.
Proof.
  induction s as [|c rest IH]; intros current in_space; simpl; [lia|].
  destruct (isWhiteSpace c); [destruct in_space|]; simpl; auto with lia.
Qed.

(** A string without white space is one piece. *)
Lemma split_spaces_no_space (s : jsstring) : forall current,
  Forall (fun c => isWhiteSpace c = false) s ->
  split_spaces s current false = [current ++ s].
Proof.
  induction s as [|c rest IH]; intros current Hs; simpl.
  - by rewrite app_nil_r.
  - apply Forall_cons in Hs as [Hc Hs]. rewrite Hc, IH by done.
    by rewrite <- app_assoc.
Qed.

(** The first piece continues the piece being read. *)
Lemma split_spaces_first (s : jsstring) : forall current,
  exists w rest, split_spaces s current false = (current ++ w) :: rest.
Proof.
  induction s as [|c r IH]; intros current; simpl.
  - exists [], []. by rewrite app_nil_r.
  - destruct (isWhiteSpace c).
    + exists [], (split_spaces r [] true). by rewrite app_nil_r.
    + destruct (IH (current ++ [c])) as (w & rest & ->).
      exists (c :: w), rest. by rewrite <- app_assoc.
Qed.

Lemma ends_with_space_cons c (r : jsstring) :
  ends_with_space (c :: r) <-> (r = [] /\ isWhiteSpace c = true) \/ ends_with_space r.
Proof.
  unfold ends_with_space. split.
  - intros (front & d & Heq & Hd). destruct front as [|x front]; simpl in Heq.
    + injection Heq as -> ->. by left.
    + injection Heq as -> ->. right. eauto.
  - intros [[-> Hc]|(front & d & -> & Hd)].
    + by exists [], c.
    + by exists (c :: front), d.
Qed.

Lemma ends_with_space_nil : ~ ends_with_space [].
Proof. intros (front & d & Heq & _). by destruct front. Qed.

(** Where a split has an empty piece. *)
Lemma split_spaces_empty_piece (r : jsstring) :
  (In [] (split_spaces r [] true) <-> r = [] \/ ends_with_space r) /\
  (forall current, current <> [] ->
     In [] (split_spaces r current false) <-> ends_with_space r).
Proof.
  induction r as [|c r [IHspace IHword]]; simpl.
  - split.
    + split; [by left|]. intros _. by left.
    + intros current Hcur. split.
      * intros [H|[]]. done.
      * intros H. by apply ends_with_space_nil in H.
  - rewrite ends_with_space_cons. destruct (isWhiteSpace c) eqn:Hw.
    + split.
      * rewrite IHspace. clear. intuition congruence.
      * intros current Hcur. simpl. rewrite IHspace, ends_with_space_cons, Hw.
        clear IHspace IHword. intuition congruence.
    + split.
      * rewrite (IHword [c]) by done. clear. intuition congruence.
      * intros current Hcur. rewrite IHword by (by destruct current).
        rewrite ends_with_space_cons, Hw. clear. intuition congruence.
Qed.

(** [initials] throws exactly when a word is empty. *)
Lemma initials_throw {UC : UpperCase} (words : list jsstring) :
  initials words = TypeError <-> In [] words.
Proof.
  induction words as [|w words IH]; simpl; [split; [done|tauto]|].
  destruct w as [|c w]; simpl.
  - split; [by left|done].
  - destruct (initials words) as [letters|].
    + split; [done|]. intros [H|H]; [done|]. by apply IH in H.
    + split; [|done]. intros _. right. by apply IH.
Qed.

Lemma initials_letters {UC : UpperCase} (words : list jsstring) : forall letters,
  Forall (Forall (fun c => isWordChar c = true)) words ->
  initials words = Return letters ->
  Forall (fun c => isSymbolChar c = true) (concat letters).
Proof.
  induction words as [|w words IH]; intros letters Hw; simpl.
  - by intros [= <-].
  - apply Forall_cons in Hw as [Hc Hw].
    destruct w as [|c w]; simpl; [done|].
    destruct (initials words) as [others|]; [|done].
    intros [= <-]. simpl. apply Forall_app. split; [|by apply IH].
    apply Forall_cons in Hc as [Hc _].
    apply (toUpperCase_word [c]). by constructor.
Qed.

(** When the symbol generator throws. *)
Lemma generateNFTSymbol_throws {UC : UpperCase} (name : jsstring) :
  generateNFTSymbol name = TypeError <->
  (2 <= length (split_whitespace (cleaned name)))%nat /\
  In [] (split_whitespace (cleaned name)).
Proof.
  unfold generateNFTSymbol. fold (cleaned name).
  pose proof (split_spaces_nonempty (cleaned name) [] false) as Hne.
  fold (split_whitespace (cleaned name)) in Hne.
  rewrite <- initials_throw.
  destruct (length (split_whitespace (cleaned name))) as [|[|n]] eqn:Hlen; simpl.
  - lia.
  - split; [|lia]. repeat case_match; done.
  - destruct (initials _).
    + split; [done|]. by intros [_ H].
    + split; [|done]. intros _. split; [lia|done].
Qed.

Lemma filter_all {A} (P : A -> Prop) `{!forall x, Decision (P x)} (l : list A) :
  Forall P l -> filter P l = l.
Proof.
  induction 1 as [|x l Hx _ IH]; [done|]. by rewrite filter_cons_True, IH.
Qed.

Lemma Forall_filter_keeps {A} (P Q : A -> Prop) `{!forall x, Decision (Q x)} (l : list A) :
  Forall P l -> Forall P (filter Q l).
Proof.
  rewrite !Forall_forall. intros Hl x Hx.
  apply list_elem_of_filter in Hx as [_ Hx]. by apply Hl.
Qed.

(** A returned symbol has at most four characters, all of them symbol
    characters. *)
Lemma generateNFTSymbol_shape {UC : UpperCase} (name symbol : jsstring) :
  generateNFTSymbol name = Return symbol ->
  (length symbol <= 4)%nat /\ Forall (fun c => isSymbolChar c = true) symbol.
Proof.
  unfold generateNFTSymbol. fold (cleaned name).
  pose proof (cleaned_words name) as Hwords.
  pose proof (split_spaces_nonempty (cleaned name) [] false) as Hne.
  fold (split_whitespace (cleaned name)) in Hne.
  destruct (split_whitespace (cleaned name)) as [|w [|w' words]] eqn:Hsplit;
    [simpl in Hne; lia| |].
  - apply Forall_cons in Hwords as [Hw _]. simpl.
    destruct (toUpperCase_word w Hw) as (_ & Hupper & _).
    destruct (length (toUpperCase w) <=? 4)%nat eqn:Hlen.
    + intros [= <-]. apply Nat.leb_le in Hlen. done.
    + assert (forall l : jsstring, Forall (fun c => isSymbolChar c = true) l ->
                (length (slice l 0%Z (Some 4%Z)) <= 4)%nat /\
                Forall (fun c => isSymbolChar c = true) (slice l 0 (Some 4))) as Hslice.
      { intros l Hl. rewrite slice_prefix. split; [rewrite length_take; lia|].
        by apply Forall_take. }
      case_match; intros [= <-]; apply Hslice; [|done].
      by apply Forall_filter_keeps.
  - change (length (w :: w' :: words) =? 0)%nat with false.
    change (length (w :: w' :: words) =? 1)%nat with false. cbv iota.
    destruct (initials (w :: w' :: words)) as [letters|] eqn:Hi; [|done].
    intros [= <-]. rewrite slice_prefix. split; [rewrite length_take; lia|].
    apply Forall_take. by eapply initials_letters.
Qed.

(** X4. The symbol generated for a collection name, when one is returned,
    has at most four characters, each of them an upper-case letter A-Z, a
    digit or an underscore. *)
Theorem symbol_is_short_and_upper_case {UC : UpperCase} (name symbol : jsstring) :
  generateNFTSymbol name = Return symbol ->
  (length symbol <= 4)%nat /\
  Forall (fun c => (65 <= c <= 90 \/ 48 <= c <= 57 \/ c = 95)%N) symbol.
Proof.
  intros Hsym. destruct (generateNFTSymbol_shape name symbol Hsym) as [Hlen Hchars].
  split; [done|]. eapply Forall_impl; [exact Hchars|]. intros c. unfold isSymbolChar.
  rewrite !orb_true_iff, !andb_true_iff, !N.leb_le, !N.eqb_eq. tauto.
Qed.

Lemma symbol_is_short_and_upper_case_witness :
  generateNFTSymbol (UC := asciiUpper) (lit "Nexus Test Collection") = Return (lit "NTC") /\
  (length (lit "NTC") <= 4)%nat /\
  Forall (fun c => (65 <= c <= 90 \/ 48 <= c <= 57 \/ c = 95)%N) (lit "NTC").
Proof.
  split; [reflexivity|].
  apply (symbol_is_short_and_upper_case (UC := asciiUpper)
           (lit "Nexus Test Collection") (lit "NTC")).
  reflexivity.
Defined.

(** X5. The symbol generator throws a TypeError exactly when the name, once
    the characters other than letters, digits, underscores and white space
    are removed, starts or ends with white space (a word is then empty and
    has no first character). The split never yields an empty list, so the
    default symbol NFT is never taken, and the empty name gets the empty
    symbol. *)
Theorem symbol_throws_iff_space_at_an_end {UC : UpperCase} (name : jsstring) :
  (generateNFTSymbol name = TypeError <->
   starts_with_space (cleaned name) \/ ends_with_space (cleaned name)) /\
  (1 <= length (split_whitespace (cleaned name)))%nat /\
  generateNFTSymbol [] = Return [].
Proof.
  split_and!.
  - rewrite generateNFTSymbol_throws. unfold split_whitespace.
    destruct (cleaned name) as [|c r]; simpl.
    + split; [lia|]. intros [(c & rest & H & _)|H]; [done|].
      by apply ends_with_space_nil in H.
    + destruct (isWhiteSpace c) eqn:Hw.
      * split; [intros _; left; by exists c, r|]. intros _. simpl.
        pose proof (split_spaces_nonempty r [] true). split; [lia|by left].
      * destruct (split_spaces_empty_piece r) as [_ Hpiece].
        specialize (Hpiece [c] ltac:(done)).
        rewrite Hpiece, ends_with_space_cons, Hw.
        split.
        { intros [_ H]. right. by right. }
        intros [(c' & rest & [= <- <-] & Hc')|[[_ H]|H]]; [congruence|done|].
        split; [|done]. apply Hpiece in H.
        destruct (split_spaces_first r [c]) as (w & rest & Hfirst).
        rewrite Hfirst in H |- *. destruct H as [H|H]; [done|].
        destruct rest; [done|simpl; lia].
  - apply split_spaces_nonempty.
  - unfold generateNFTSymbol. simpl.
    rewrite (toUpperCase_ascii [] ltac:(constructor)). reflexivity.
Qed.

Example symbol_of_padded_name :
  generateNFTSymbol (UC := asciiUpper) (lit "My NFT ") = TypeError /\
  generateNFTSymbol (UC := asciiUpper) (lit "My NFT") = Return (lit "MN") /\
  generateNFTSymbol (UC := asciiUpper) (lit "MyNFT") = Return (lit "MYNF") /\
  generateNFTSymbol (UC := asciiUpper) (lit "Audio") = Return (lit "AUDI").
Proof. split_and!; reflexivity. Qed.

(** X6. A generated symbol is its own symbol: generating again from a
    returned symbol returns it unchanged. *)
Theorem symbol_is_idempotent {UC : UpperCase} (name symbol : jsstring) :
  generateNFTSymbol name = Return symbol ->
  generateNFTSymbol symbol = Return symbol.
Proof.
  intros Hsym. destruct (generateNFTSymbol_shape name symbol Hsym) as [Hlen Hchars].
  unfold generateNFTSymbol.
  rewrite filter_all.
  2:{ eapply Forall_impl; [exact Hchars|]. intros c Hc. simpl.
      by rewrite (symbolChar_wordChar c Hc). }
  unfold split_whitespace. rewrite split_spaces_no_space.
  2:{ eapply Forall_impl; [exact Hchars|]. apply symbolChar_not_space. }
  simpl. rewrite (toUpperCase_symbol symbol Hchars).
  apply Nat.leb_le in Hlen. by rewrite Hlen.
Qed.

Lemma symbol_is_idempotent_witness :
  generateNFTSymbol (UC := asciiUpper) (lit "Audio") = Return (lit "AUDI") /\
  generateNFTSymbol (UC := asciiUpper) (lit "AUDI") = Return (lit "AUDI").
Proof.
  split; [reflexivity|].
  apply (symbol_is_idempotent (UC := asciiUpper) (lit "Audio") (lit "AUDI")).
  reflexivity.
Defined.

End Symbol.

(** * Properties of the components and of the gallery *)

Module Gallery.
Import JS JSText Firebase Components CollectionPage GallerySpec.

Lemma slice_first (s : jsstring) (n : nat) :
  slice s 0 (Some (Z.of_nat n)) = take n s.
Proof.
  unfold slice. simpl.
  rewrite (proj2 (Z.ltb_ge (Z.of_nat n) 0)) by lia.
  replace (Z.to_nat (Z.min 0 (Z.of_nat (length s)))) with 0%nat by lia.
  rewrite drop_0.
  replace (Z.to_nat (Z.max (Z.min (Z.of_nat n) (Z.of_nat (length s))
                            - Z.min 0 (Z.of_nat (length s))) 0))
    with (min n (length s)) by lia.
  destruct (le_lt_dec n (length s)) as [Hlong|Hshort].
  - by rewrite Nat.min_l.
  - rewrite Nat.min_r by lia. rewrite !take_ge by lia. done.
Qed.

Lemma slice_last (s : jsstring) (n : nat) :
  (0 < n)%nat -> slice s (- Z.of_nat n) None = drop (length s - n) s.
Proof.
  intros Hn. unfold slice.
  rewrite (proj2 (Z.ltb_lt (- Z.of_nat n) 0)) by lia.
  replace (Z.to_nat (Z.max (Z.of_nat (length s) + - Z.of_nat n) 0))
    with (length s - n)%nat by lia.
  apply take_ge. rewrite length_drop. lia.
Qed.

Lemma formatAddress_some (a : jsstring) :
  a <> [] ->
  formatAddress (Some a) = take 6 a ++ lit "..." ++ drop (length a - 4) a /\
  length (formatAddress (Some a)) = (min 6 (length a) + 3 + min 4 (length a))%nat.
Proof.
  intros Ha.
  assert (formatAddress (Some a) = take 6 a ++ lit "..." ++ drop (length a - 4) a) as ->.
  { unfold formatAddress. destruct a as [|c a]; [done|]. cbn [truthy].
    by rewrite (slice_first _ 6), (slice_last _ 4) by lia. }
  split; [done|]. rewrite !length_app, length_take, length_drop.
  change (length (lit "...")) with 3%nat. lia.
Qed.

(** X7. [formatAddress] never fails. It gives the empty string exactly for
    a missing or empty address; otherwise the first six characters, three
    dots and the last four, which for an address of ten characters or more
    is a display of thirteen characters made of two disjoint parts of the
    address. *)
Theorem formatAddress_shape (address : option jsstring) :
  (formatAddress address = [] <-> address = None \/ address = Some []) /\
  forall a, address = Some a -> a <> [] ->
    formatAddress address = take 6 a ++ lit "..." ++ drop (length a - 4) a /\
    length (formatAddress address) = (min 6 (length a) + 3 + min 4 (length a))%nat /\
    ((10 <= length a)%nat ->
     length (formatAddress address) = 13%nat /\
     exists hidden, a = take 6 a ++ hidden ++ drop (length a - 4) a).
Proof.
  split.
  - destruct address as [[|c a]|].
    + split; [by right|done].
    + split; [|intros [H|H]; done]. intros H.
      destruct (formatAddress_some (c :: a)) as [_ Hlen]; [done|].
      rewrite H in Hlen. simpl in Hlen. lia.
    + split; [by left|done].
  - intros a -> Ha. destruct (formatAddress_some a Ha) as [Heq Hlen].
    split_and!; [done|done|].
    intros Hlong. split; [lia|].
    exists (take (length a - 10) (drop 6 a)).
    rewrite <- (take_drop 6 a) at 1. f_equal.
    rewrite <- (take_drop (length a - 10) (drop 6 a)) at 1. f_equal.
    rewrite drop_drop. f_equal. lia.
Qed.

Lemma loadNFT_tokenId fetch contract i :
  tokenId (loadNFT fetch contract i) = Number_toString i.
Proof. unfold loadNFT. repeat case_match; reflexivity. Qed.

Lemma fold_left_snoc {A B} (f : A -> B) (l : list A) (acc : list B) :
  fold_left (fun nfts i => nfts ++ [f i]) l acc = acc ++ map f l.
Proof.
  revert acc. induction l as [|x l IH]; intros acc; simpl.
  - by rewrite app_nil_r.
  - by rewrite IH, <- app_assoc.
Qed.

(** The card that the loop body pushes for a token, case by case. *)
Lemma loadNFT_cases fetch contract i :
  tokenId (loadNFT fetch contract i) = Number_toString i /\
  (forall error, tokenURI contract i = Rejected error ->
     metadata (loadNFT fetch contract i) = None) /\
  (forall uri error, tokenURI contract i = Resolved uri ->
     fetch uri = Rejected error ->
     metadata (loadNFT fetch contract i) = None) /\
  (forall uri response, tokenURI contract i = Resolved uri ->
     fetch uri = Resolved response -> ok response = false ->
     metadata (loadNFT fetch contract i) = None) /\
  (forall uri response error, tokenURI contract i = Resolved uri ->
     fetch uri = Resolved response -> ok response = true ->
     json response = Rejected error ->
     metadata (loadNFT fetch contract i) = None) /\
  (forall uri response document, tokenURI contract i = Resolved uri ->
     fetch uri = Resolved response -> ok response = true ->
     json response = Resolved document ->
     metadata (loadNFT fetch contract i) = Some document).
Proof.
  split; [apply loadNFT_tokenId|]. unfold loadNFT. split_and!.
  - by intros error ->.
  - by intros uri error -> ->.
  - by intros uri response -> -> ->.
  - by intros uri response error -> -> -> ->.
  - by intros uri response document -> -> -> ->.
Qed.

(** X8. Loading the gallery from a contract whose total supply is below
    2^53: the function ends with the loading flag cleared and one card per
    token id 1, 2, ..., supply, in this order and replacing the cards shown
    before, whatever fails on the way. The card of token [i] stands at
    position [i - 1] and carries the id in decimal; its metadata is null
    when the token URI cannot be read, when the fetch fails, when the
    response has an error status and when its body does not parse as JSON,
    and it is the parsed body in the one remaining case. *)
Theorem gallery_has_a_card_per_token fetch contract gallery supply :
  totalSupply contract = Resolved supply ->
  supply < 2 ^ 53 ->
  exists loaded,
    fetchCollectionNFTs fetch (Some contract) gallery = Some loaded /\
    isLoadingNFTs loaded = false /\
    map tokenId (ownedNFTs loaded) = map Number_toString (seqZ 1 supply) /\
    length (ownedNFTs loaded) = Z.to_nat supply /\
    forall i, 1 <= i <= supply ->
      exists nft,
        ownedNFTs loaded !! Z.to_nat (i - 1) = Some nft /\
        tokenId nft = Number_toString i /\
        (forall error, tokenURI contract i = Rejected error ->
           metadata nft = None) /\
        (forall uri error, tokenURI contract i = Resolved uri ->
           fetch uri = Rejected error ->
           metadata nft = None) /\
        (forall uri response, tokenURI contract i = Resolved uri ->
           fetch uri = Resolved response -> ok response = false ->
           metadata nft = None) /\
        (forall uri response error, tokenURI contract i = Resolved uri ->
           fetch uri = Resolved response -> ok response = true ->
           json response = Rejected error ->
           metadata nft = None) /\
        (forall uri response document, tokenURI contract i = Resolved uri ->
           fetch uri = Resolved response -> ok response = true ->
           json response = Resolved document ->
           metadata nft = Some document).
Proof.
  intros Hsupply Hsmall. unfold fetchCollectionNFTs. rewrite Hsupply.
  apply Z.ltb_lt in Hsmall. rewrite Hsmall.
  eexists. split; [reflexivity|]. simpl. rewrite fold_left_snoc. simpl.
  split_and!.
  - reflexivity.
  - rewrite map_map. apply map_ext. intros i. apply loadNFT_tokenId.
  - by rewrite length_map, length_seqZ.
  - intros i Hi. exists (loadNFT fetch contract i). split.
    + change (map ?f ?l) with (f <$> l). rewrite list_lookup_fmap.
      rewrite lookup_seqZ_lt by lia. simpl. do 2 f_equal. lia.
    + apply loadNFT_cases.
Qed.

Lemma gallery_has_a_card_per_token_witness :
  exists loaded,
    fetchCollectionNFTs failing_fetch (Some sample_contract)
      {| ownedNFTs := []; isLoadingNFTs := true |} = Some loaded /\
    isLoadingNFTs loaded = false /\
    map tokenId (ownedNFTs loaded) = [lit "1"; lit "2"; lit "3"] /\
    length (ownedNFTs loaded) = 3%nat.
Proof.
  destruct (gallery_has_a_card_per_token failing_fetch sample_contract
              {| ownedNFTs := []; isLoadingNFTs := true |} 3 eq_refl ltac:(lia))
    as (loaded & Hloaded & Hflag & Hids & Hlength & _).
  exists loaded. split_and!; [exact Hloaded|exact Hflag|exact Hids|exact Hlength].
Defined.

Lemma loadNFT_served fetch contract i uri :
  tokenURI contract i = Resolved uri ->
  loadNFT fetch contract i
  = {| tokenId := Number_toString i; metadata := served fetch uri |}.
Proof.
  intros Hi. unfold loadNFT, served. rewrite Hi.
  destruct (fetch uri) as [response|]; [|done].
  destruct (ok response); [|done]. by destruct (json response).
Qed.

(** X9. The gallery of a collection shows its minted tokens: for a
    collection deployed and then used through any calls (fewer than 2^53
    successful mints), loading the gallery gives exactly one card per
    minted token, in mint order; no read of a token URI fails, and the
    metadata of each card is what the token's URI, the base URI followed by
    the id, serves. *)
Theorem gallery_shows_the_minted_tokens fetch decode name symbol initialOwner
    (calls : list SimpleNFT.Call) gallery :
  let s0 := SimpleNFT.constructor name symbol initialOwner in
  let s := SimpleNFT.run s0 calls in
  Z.of_nat (length (SimpleNFT.minted s0 calls)) < 2 ^ 53 ->
  fetchCollectionNFTs fetch (Some (connect decode s)) gallery
  = Some {| ownedNFTs := map (card fetch decode s) (SimpleNFT.minted s0 calls);
            isLoadingNFTs := false |}.
Proof.
  intros s0 s Hsmall.
  destruct (Registry.minted_counter calls s0) as [Hids Hnext].
  destruct (Registry.wf_run calls s0 (Registry.wf_constructor _ _ _)) as [_ Hdom].
  fold s in Hnext, Hdom. change (SimpleNFT._nextTokenId s0) with 1%N in Hids, Hnext.
  remember (length (SimpleNFT.minted s0 calls)) as n eqn:Hn. clear Hn.
  unfold fetchCollectionNFTs.
  assert (totalSupply (connect decode s) = Resolved (Z.of_nat n)) as ->.
  { simpl. unfold SimpleNFT.totalSupply. rewrite Hnext. case_decide; [lia|].
    f_equal. lia. }
  apply Z.ltb_lt in Hsmall. rewrite Hsmall. do 2 f_equal.
  rewrite fold_left_snoc, Hids. simpl. unfold RegistrySpec.ids_from, seqZ.
  rewrite Nat2Z.id. change (fmap ?f ?l) with (map f l). rewrite !map_map.
  apply map_ext_in. intros k Hk. apply in_seq in Hk.
  assert (Z.to_N (Z.of_nat k + 1) = (1 + N.of_nat k)%N) as Hid by lia.
  assert (is_Some (SimpleNFT._owners s !! (1 + N.of_nat k)%N)) as [holder Hholder].
  { apply Hdom. lia. }
  rewrite (loadNFT_served fetch _ _
             (decode (SimpleNFT._baseTokenURI s
                      ++ SimpleNFT.toString (1 + N.of_nat k)%N)%string)).
  - unfold card. do 2 f_equal. lia.
  - simpl. rewrite Hid. unfold SimpleNFT.tokenURI. by rewrite Hholder.
Qed.

Lemma gallery_shows_the_minted_tokens_witness :
  let s0 := SimpleNFT.constructor "Test NFT" "TNFT" 1 in
  let calls := LifecycleSpec.sample_history in
  fetchCollectionNFTs failing_fetch (Some (connect lit (SimpleNFT.run s0 calls)))
    {| ownedNFTs := []; isLoadingNFTs := true |}
  = Some {| ownedNFTs := [ {| tokenId := lit "1"; metadata := None |};
                           {| tokenId := lit "2"; metadata := None |} ];
            isLoadingNFTs := false |}.
Proof.
  apply (gallery_shows_the_minted_tokens failing_fetch lit "Test NFT" "TNFT" 1
           LifecycleSpec.sample_history {| ownedNFTs := []; isLoadingNFTs := true |}).
  vm_compute. reflexivity.
Defined.

End Gallery.

(** * Further properties of the upload and metadata endpoints *)

Module Endpoints.
Import JS Constants Firebase ResolverSpec UploadSpec SharedStoreSpec.

Lemma POST_cases {U : Unicode} store now formData :
  let response := fst (UploadRoute.POST store now formData) in
  let writes := snd (UploadRoute.POST store now formData) in
  match UploadRoute.file formData with
  | None =>
      response = mkResponse 400 [] (UploadRoute.Error (lit "No file uploaded")) /\
      writes = []
  | Some f =>
      if truthy_opt (UploadRoute.contractAddress formData) then
        if startsWith (UploadRoute.type f) (lit "image/") then
          (status response = 200 \/ status response = 500) /\ (length writes <= 1)%nat
        else
          response = mkResponse 400 [] (UploadRoute.Error (lit "File must be an image")) /\
          writes = []
      else
        response
        = mkResponse 400 [] (UploadRoute.Error (lit "Contract address is required")) /\
        writes = []
  end.
Proof.
  cbv zeta. unfold UploadRoute.POST, UploadRoute.failed.
  destruct (UploadRoute.file formData) as [f|]; [|done].
  destruct (truthy_opt (UploadRoute.contractAddress formData)); simpl; [|done].
  destruct (startsWith (UploadRoute.type f) (lit "image/")); simpl; [|done].
  destruct (getStorage store); [|split; [by right|simpl; lia]].
  destruct (uploadBytes store _ _ _) as [uploaded|]; [|split; [by right|simpl; lia]].
  destruct (getDownloadURL store uploaded); simpl; split; auto with lia.
Qed.

(** X10. The upload handler validates before it stores. It answers 400
    exactly when the file is missing, the contract address is missing or
    empty, or the file's type does not start with image/, naming the first
    of these that applies, and then it has written nothing; every other
    request is answered 200 or 500, and no request writes more than one
    object. *)
Theorem upload_rejections_write_nothing {U : Unicode} store now formData :
  let response := fst (UploadRoute.POST store now formData) in
  let writes := snd (UploadRoute.POST store now formData) in
  (status response = 200 \/ status response = 400 \/ status response = 500) /\
  (status response = 400 <->
   UploadRoute.file formData = None \/
   missing (UploadRoute.contractAddress formData) \/
   exists f, UploadRoute.file formData = Some f /\
             startsWith (UploadRoute.type f) (lit "image/") = false) /\
  (UploadRoute.file formData = None ->
   response = mkResponse 400 [] (UploadRoute.Error (lit "No file uploaded"))) /\
  (UploadRoute.file formData <> None ->
   missing (UploadRoute.contractAddress formData) ->
   response = mkResponse 400 [] (UploadRoute.Error (lit "Contract address is required"))) /\
  (forall f, UploadRoute.file formData = Some f ->
   ~ missing (UploadRoute.contractAddress formData) ->
   startsWith (UploadRoute.type f) (lit "image/") = false ->
   response = mkResponse 400 [] (UploadRoute.Error (lit "File must be an image"))) /\
  (status response = 400 -> writes = []) /\
  (length writes <= 1)%nat.
Proof.
  cbv zeta. pose proof (POST_cases store now formData) as Hcases. cbv zeta in Hcases.
  pose proof (Resolver.truthy_opt_missing (UploadRoute.contractAddress formData)) as Hmiss.
  destruct (UploadRoute.file formData) as [f|] eqn:Hfile.
  - destruct (truthy_opt (UploadRoute.contractAddress formData)) eqn:Haddr.
    + assert (~ missing (UploadRoute.contractAddress formData)) as Hpresent.
      { intros H. apply Hmiss in H. congruence. }
      destruct (startsWith (UploadRoute.type f) (lit "image/")) eqn:Himage.
      * destruct Hcases as [Hstatus Hlen]. split_and!.
        -- tauto.
        -- split; [intros H; destruct Hstatus; congruence|].
           intros [H|[H|(f' & [= <-] & H)]]; [done|done|congruence].
        -- done.
        -- done.
        -- intros f' [= <-] _ H. congruence.
        -- intros H. destruct Hstatus; congruence.
        -- exact Hlen.
      * destruct Hcases as [-> ->]. split_and!.
        -- right. by left.
        -- split; [|done]. intros _. right. right. by exists f.
        -- done.
        -- done.
        -- done.
        -- done.
        -- simpl. lia.
    + destruct Hcases as [-> ->].
      assert (missing (UploadRoute.contractAddress formData)) as Habsent by by apply Hmiss.
      split_and!.
      * right. by left.
      * split; [|done]. intros _. right. by left.
      * done.
      * done.
      * done.
      * done.
      * simpl. lia.
  - destruct Hcases as [-> ->]. split_and!.
    + right. by left.
    + split; [|done]. intros _. by left.
    + done.
    + done.
    + done.
    + done.
    + simpl. lia.
Qed.

Lemma startsWith_app (prefix rest : jsstring) : startsWith (prefix ++ rest) prefix = true.
Proof.
  induction prefix as [|c prefix IH]; simpl.
  - by destruct rest.
  - unfold code_unit_eqb. by rewrite N.eqb_refl, IH.
Qed.

(** [find] returns the first element that satisfies the test. *)
Lemma find_first {A} (test : A -> bool) (before : list A) (x : A) (after : list A) :
  Forall (fun y => test y = false) before ->
  test x = true ->
  find test (before ++ x :: after) = Some x.
Proof.
  intros Hbefore Hx. induction Hbefore as [|y before Hy _ IH]; simpl.
  - by rewrite Hx.
  - by rewrite Hy.
Qed.

(** Both lookups return the URL of the first listed object whose name
    starts with collection-. *)
Lemma findUploadedImage_first {U : Unicode} store address before item after u :
  getStorage store = Resolved u ->
  listAll store (lit "collections/" ++ toLowerCase address)
    = Resolved (before ++ item :: after) ->
  Forall (fun other => startsWith (Firebase.name other) (lit "collection-") = false)
         before ->
  startsWith (Firebase.name item) (lit "collection-") = true ->
  let found := match getDownloadURL store item with
               | Resolved url => Some url
               | Rejected _ => None
               end in
  MetadataRoute.findUploadedImage store address = found /\
  MetadataQueryRoute.findUploadedImage store address = found.
Proof.
  intros Hs Hl Hbefore Hitem.
  unfold MetadataRoute.findUploadedImage, MetadataQueryRoute.findUploadedImage.
  rewrite Hs, Hl.
  rewrite (find_first (fun item => startsWith (Firebase.name item) (lit "collection-"))
             before item after Hbefore Hitem).
  by destruct (getDownloadURL store item).
Qed.

(** X11. What the upload stores is what the resolver looks for: after a
    successful upload the object lies directly in the directory
    [collections/<lower-cased address>] that both [findUploadedImage] list,
    under a name that starts with collection- and has no path separator.
    Both handlers find the uploaded image as soon as the store lists that
    object for the directory, with no other object named collection-...
    listed before it, and resolves its URL. Whatever else the directory
    holds, both take the first listed object whose name starts with
    collection-: listed before the new object, the image of another upload
    is the one they return. *)
Theorem upload_is_found_by_the_resolver {U : Unicode} store now formData :
  status (fst (UploadRoute.POST store now formData)) = 200 ->
  exists f address filename,
    UploadRoute.file formData = Some f /\
    UploadRoute.contractAddress formData = Some address /\
    map UploadRoute.storagePath (snd (UploadRoute.POST store now formData))
    = [(lit "collections/" ++ toLowerCase address) ++ lit "/" ++ filename] /\
    startsWith filename (lit "collection-") = true /\
    ~ In slash filename /\
    (forall later before item after url u,
       Firebase.name item = filename ->
       getStorage later = Resolved u ->
       listAll later (lit "collections/" ++ toLowerCase address)
         = Resolved (before ++ item :: after) ->
       Forall (fun other => startsWith (Firebase.name other) (lit "collection-") = false)
              before ->
       getDownloadURL later item = Resolved url ->
       MetadataRoute.findUploadedImage later address = Some url /\
       MetadataQueryRoute.findUploadedImage later address = Some url) /\
    (forall later before other after url u,
       getStorage later = Resolved u ->
       listAll later (lit "collections/" ++ toLowerCase address)
         = Resolved (before ++ other :: after) ->
       Forall (fun other => startsWith (Firebase.name other) (lit "collection-") = false)
              before ->
       startsWith (Firebase.name other) (lit "collection-") = true ->
       getDownloadURL later other = Resolved url ->
       MetadataRoute.findUploadedImage later address = Some url /\
       MetadataQueryRoute.findUploadedImage later address = Some url).
Proof.
  intros Hok.
  destruct (Upload.POST_success store now formData Hok)
    as (f & address & Hf & Ha & _ & _ & Hw).
  exists f, address, (UploadRoute.filename_of f). split_and!.
  - exact Hf.
  - exact Ha.
  - rewrite Hw. unfold UploadRoute.storagePath_of. by rewrite <- app_assoc.
  - apply startsWith_app.
  - apply Upload.filename_no_slash.
  - intros later before item after url u Hname Hs Hl Hbefore Hu.
    assert (startsWith (Firebase.name item) (lit "collection-") = true) as Hitem.
    { rewrite Hname. apply startsWith_app. }
    pose proof (findUploadedImage_first later address before item after u
                  Hs Hl Hbefore Hitem) as Hfound.
    cbv zeta in Hfound. by rewrite Hu in Hfound.
  - intros later before other after url u Hs Hl Hbefore Hother Hu.
    pose proof (findUploadedImage_first later address before other after u
                  Hs Hl Hbefore Hother) as Hfound.
    cbv zeta in Hfound. by rewrite Hu in Hfound.
Qed.

Lemma upload_is_found_by_the_resolver_witness :
  MetadataRoute.findUploadedImage (U := asciiLower) crowded_store (lit "0xAbC")
  = Some (lit "https://storage.example/collections/0xabc/collection-cat.png").
Proof.
  destruct (upload_is_found_by_the_resolver (U := asciiLower) sample_store 1700000000000
              {| UploadRoute.file :=
                   Some {| UploadRoute.name := lit "cat.png";
                           UploadRoute.type := lit "image/png";
                           UploadRoute.bytes := [137; 80]%N |};
                 UploadRoute.tokenId := None;
                 UploadRoute.contractAddress := Some (lit "0xABC") |} eq_refl)
    as (f & address & filename & Hf & Ha & Hpath & _ & _ & Hfound & _).
  injection Hf as <-. injection Ha as <-. injection Hpath as Hpath.
  subst filename.
  apply (Hfound crowded_store [note_item] sample_item [other_item] _ tt);
    [reflexivity|reflexivity|reflexivity| |reflexivity].
  apply List.Forall_cons; [reflexivity|apply List.Forall_nil].
Defined.

(** The two handlers build the same document on the server. *)
Lemma build_metadata_agree env now uploadedImage tokenId :
  window_origin env = None ->
  MetadataQueryRoute.build_metadata env now uploadedImage tokenId
  = MetadataRoute.build_metadata env now uploadedImage tokenId.
Proof.
  intros Hw. unfold MetadataQueryRoute.build_metadata, MetadataRoute.build_metadata,
    MetadataQueryRoute.apiUrl, MetadataQueryRoute.websiteUrl, API_URL, BASE_URL.
  by rewrite Hw.
Qed.

(** X12. On the server (no window) the two metadata handlers answer alike:
    a request whose query carries a non-empty token id gets from the
    query-string handler the very response the path handler gives for that
    token id as route segment, whatever the contract parameter, the store,
    the environment variables and the time. *)
Theorem metadata_handlers_agree {U : Unicode} store env now request tokenId :
  window_origin env = None ->
  searchParams_get (MetadataRoute.searchParams request) (lit "tokenId") = Some tokenId ->
  tokenId <> [] ->
  MetadataQueryRoute.GET store env now request
  = MetadataRoute.GET store env now request tokenId.
Proof.
  intros Hw Ht Hn.
  destruct (Resolver.missing_or_present
              (searchParams_get (MetadataRoute.searchParams request) (lit "contract")))
    as [Hc|(address & Hc & Ha)].
  - by destruct (Resolver.GET_missing_contract store env now request tokenId Hc) as [-> ->].
  - destruct (Resolver.GET_document store env now request address tokenId Hc Ha)
      as [-> Hq].
    rewrite (Hq Ht Hn). by rewrite build_metadata_agree.
Qed.

Lemma metadata_handlers_agree_witness :
  MetadataQueryRoute.GET (U := asciiLower) sample_store sample_env 1700000000000
    sample_request
  = MetadataRoute.GET (U := asciiLower) sample_store sample_env 1700000000000
      sample_request (lit "7").
Proof.
  apply (metadata_handlers_agree (U := asciiLower) sample_store sample_env 1700000000000
           sample_request (lit "7")); [reflexivity|reflexivity|discriminate].
Defined.

(** X13. The metadata document depends on the time of the request through
    its second only: two requests that differ in nothing but the time get
    the same response when made within the same second, and successful
    responses from different seconds differ. *)
Theorem metadata_changes_with_the_second {U : Unicode} store env request tokenId
    (now1 now2 : Z) :
  let first := MetadataRoute.GET store env now1 request tokenId in
  let second := MetadataRoute.GET store env now2 request tokenId in
  (now1 / 1000 = now2 / 1000 -> first = second) /\
  (status first = 200 -> first = second -> now1 / 1000 = now2 / 1000).
Proof.
  cbv zeta.
  destruct (Resolver.missing_or_present
              (searchParams_get (MetadataRoute.searchParams request) (lit "contract")))
    as [Hc|(address & Hc & Ha)].
  - destruct (Resolver.GET_missing_contract store env now1 request tokenId Hc) as [-> _].
    destruct (Resolver.GET_missing_contract store env now2 request tokenId Hc) as [-> _].
    split; [done|]. simpl. discriminate.
  - destruct (Resolver.GET_document store env now1 request address tokenId Hc Ha) as [-> _].
    destruct (Resolver.GET_document store env now2 request address tokenId Hc Ha) as [-> _].
    unfold MetadataRoute.build_metadata. split.
    + by intros ->.
    + intros _ [= Heq]. exact Heq.
Qed.

End Endpoints.

(** * Further properties of the image synthesizer *)

Module Picture.
Import JS ImageRoute SynthesizerSpec PictureSpec.

(** A template of nine pieces whose first starts, after white space, with
    the svg start tag, whose seventh ends with a number sign and whose last
    ends, before white space, with [ending]. *)
Lemma trim_template (p a b c e f label tok q ending : jsstring) :
  trimStart p = lit "<svg " ++ drop 5 (trimStart p) ->
  label = removelast label ++ lit "#" ->
  trimStart (rev q) = rev ending ->
  ending <> [] ->
  trim (p ++ a ++ b ++ c ++ e ++ f ++ label ++ tok ++ q)
  = lit "<svg " ++ (drop 5 (trimStart p) ++ a ++ b ++ c ++ e ++ f ++ removelast label)
    ++ lit "#" ++ tok ++ ending.
Proof.
  intros Hp Hlabel Hq Hending.
  transitivity (trim (p ++ (a ++ b ++ c ++ e ++ f ++ label ++ tok) ++ q)).
  { f_equal. by rewrite <- !app_assoc. }
  rewrite Synthesizer.trim_ends.
  - rewrite Hq, rev_involutive. rewrite Hp at 1. rewrite Hlabel at 1.
    by rewrite <- !app_assoc.
  - rewrite Hp. discriminate.
  - rewrite Hq. intros H. apply Hending.
    apply (f_equal (@rev N)) in H. by rewrite rev_involutive in H.
Qed.

(** X14. Every picture is one svg element around the token id as it came:
    for every token id the body starts with the svg start tag and ends with
    the text and svg end tags, and the token id stands before them after a
    number sign, character for character, nothing escaped. *)
Theorem picture_wraps_the_token_id {F : Float64} (tokenId : jsstring) :
  exists inner,
    body (GET tokenId) = lit "<svg " ++ inner ++ lit "#" ++ tokenId ++ closing /\
    closing = newline ++ lit "        </text>" ++ newline ++ lit "      </svg>".
Proof.
  eexists. split; [|reflexivity].
  unfold GET, svg. cbn [body].
  apply trim_template; [reflexivity|reflexivity|reflexivity|discriminate].
Qed.

(** A string without surrogates has one character per code unit. *)
Lemma Array_from_units (s : jsstring) :
  Forall (fun c => isHighSurrogate c = false) s ->
  Array_from s = map (fun c => [c]) s.
Proof.
  induction 1 as [|h t Hh _ IH]; [done|].
  simpl. rewrite Hh. simpl. destruct t as [|l t']; [done|]. by rewrite <- IH.
Qed.

Lemma digit_not_surrogate c : isDigit c -> isHighSurrogate c = false.
Proof.
  unfold isDigit, isHighSurrogate. intros Hc.
  apply andb_false_iff. left. apply N.leb_gt. lia.
Qed.

Lemma charCodes_digits (tokenId : jsstring) :
  Forall isDigit tokenId -> charCodes tokenId = map Z.of_N tokenId.
Proof.
  intros Hd. unfold charCodes. rewrite Array_from_units.
  - rewrite map_map. reflexivity.
  - eapply Forall_impl; [exact Hd|]. apply digit_not_surrogate.
Qed.

(** After [k] digits the hash is at most [2 * 31^k - 2]; up to six digits
    this stays below 2^31 and nothing wraps. *)
Lemma fold_digits_no_wrap (digits : jsstring) : forall (acc : Z) (k : nat),
  Forall isDigit digits ->
  0 <= acc <= 2 * 31 ^ Z.of_nat k - 2 ->
  (k + length digits <= 6)%nat ->
  fold_left (fun hash charCode => wrap32 (hash * 31 + charCode)) (map Z.of_N digits) acc
  = fold_left (fun hash c => hash * 31 + Z.of_N c) digits acc /\
  0 <= fold_left (fun hash c => hash * 31 + Z.of_N c) digits acc < 2 ^ 31.
Proof.
  induction digits as [|c digits IH]; intros acc k Hd Hacc Hk; simpl.
  - split; [done|].
    assert (31 ^ Z.of_nat k <= 31 ^ 6) by (apply Z.pow_le_mono_r; simpl in Hk; lia).
    lia.
  - apply Forall_cons in Hd as [Hc Hd]. unfold isDigit in Hc. simpl in Hk.
    assert (31 ^ Z.of_nat (S k) = 31 * 31 ^ Z.of_nat k) as Hpow
      by (rewrite Nat2Z.inj_succ, Z.pow_succ_r; lia).
    assert (31 ^ Z.of_nat (S k) <= 31 ^ 6) as Hsix by (apply Z.pow_le_mono_r; lia).
    assert (wrap32 (acc * 31 + Z.of_N c) = acc * 31 + Z.of_N c) as ->.
    { apply Synthesizer.ToInt32_small. lia. }
    apply (IH _ (S k)); [done|lia|lia].
Qed.

(** X15. For a token id of at most six decimal digits the hash does not
    wrap around: it is the token id read in base 31 with the character
    codes as digits, it is not negative, and the radius of the circles is
    the base 50 plus the hash modulo 30, between 50 and 79. *)
Theorem short_decimal_ids_do_not_wrap (tokenId : jsstring) :
  Forall isDigit tokenId ->
  (length tokenId <= 6)%nat ->
  hash tokenId = plain_hash tokenId /\
  0 <= hash tokenId < 2 ^ 31 /\
  radius tokenId = 50 + hash tokenId mod 30 /\
  50 <= radius tokenId <= 79.
Proof.
  intros Hd Hlen.
  destruct (fold_digits_no_wrap tokenId 0 0 Hd ltac:(simpl; lia) ltac:(simpl; lia))
    as [Heq Hrange].
  assert (hash tokenId = plain_hash tokenId) as Hhash.
  { rewrite Synthesizer.hash_spec_hash, charCodes_digits by done. exact Heq. }
  fold (plain_hash tokenId) in Hrange. rewrite <- Hhash in Hrange.
  assert (radius tokenId = 50 + hash tokenId mod 30) as Hradius.
  { unfold radius, remainder. rewrite Z.rem_mod_nonneg; lia. }
  split_and!; try done; try lia.
  - rewrite Hradius. pose proof (Z.mod_pos_bound (hash tokenId) 30). lia.
  - rewrite Hradius. pose proof (Z.mod_pos_bound (hash tokenId) 30). lia.
Qed.

Lemma short_decimal_ids_do_not_wrap_witness :
  hash (lit "999999") = plain_hash (lit "999999") /\
  0 <= hash (lit "999999") < 2 ^ 31 /\
  radius (lit "999999") = 50 + hash (lit "999999") mod 30 /\
  50 <= radius (lit "999999") <= 79.
Proof.
  apply (short_decimal_ids_do_not_wrap (lit "999999")).
  - repeat (apply List.Forall_cons; [unfold isDigit; simpl; lia|]). apply List.Forall_nil.
  - simpl. lia.
Defined.

End Picture.
